(** * db-checker.js: link discovery and validation

    A shallow embedding of [src/db-checker.js] (the MongoDB hyperlink
    checker) together with the properties its specification states about
    URL extraction, field sniffing, the two harvesting passes and the
    validity checker.

    Layout: the JavaScript runtime pieces the script relies on (strings,
    the one regular expression, values, objects, [Set]), then the script's
    own functions under their own names and the vocabulary of the
    statements, then the facts and theorems, then runs on concrete
    inputs. *)

From Stdlib Require Import String Ascii.
From Stdlib Require Import List NArith ZArith Bool Arith Lia.
From Equations Require Import Equations.
Import ListNotations.

Set Warnings "-register-all".

(* ================================================================== *)
(** ** JavaScript strings *)
(* ================================================================== *)

(** A JavaScript string is a sequence of UTF-16 code units.  The regular
    expression of the script has no [u] flag, so matching, [includes],
    [startsWith] and [trim] all work code unit by code unit. *)
Definition jsstring : Type := list N.

(** An ASCII literal of the source as code units. *)
Definition lit (s : string) : jsstring :=
  map N_of_ascii (list_ascii_of_string s).
Arguments lit s%_string.

Fixpoint jsstring_eqb (a b : jsstring) : bool :=
  match a, b with
  | [], [] => true
  | x :: a', y :: b' => N.eqb x y && jsstring_eqb a' b'
  | _, _ => false
  end.

(** [s.startsWith(p)] *)
Fixpoint startsWith (p s : jsstring) : bool :=
  match p, s with
  | [], _ => true
  | _ :: _, [] => false
  | x :: p', y :: s' => N.eqb x y && startsWith p' s'
  end.

(** [s.includes(p)]: [p] occurs at some position of [s]. *)
Fixpoint includes (p s : jsstring) : bool :=
  startsWith p s ||
  match s with
  | [] => false
  | _ :: s' => includes p s'
  end.

(** ECMAScript WhiteSpace and LineTerminator code points: what [\s]
    matches and what [trim] strips. *)
Definition isWhiteSpace (c : N) : bool :=
  ((9 <=? c) && (c <=? 13)            (* TAB LF VT FF CR *)
   || (c =? 32)                       (* SPACE *)
   || (c =? 160)                      (* NO-BREAK SPACE *)
   || (c =? 5760)                     (* U+1680 *)
   || ((8192 <=? c) && (c <=? 8202))  (* U+2000 .. U+200A *)
   || (c =? 8232) || (c =? 8233)      (* U+2028, U+2029 *)
   || (c =? 8239)                     (* U+202F *)
   || (c =? 8287)                     (* U+205F *)
   || (c =? 12288)                    (* U+3000 *)
   || (c =? 65279))%N.                (* U+FEFF *)

Fixpoint trimStart (s : jsstring) : jsstring :=
  match s with
  | [] => []
  | c :: s' => if isWhiteSpace c then trimStart s' else s
  end.

Definition trimEnd (s : jsstring) : jsstring := rev (trimStart (rev s)).

(** [s.trim()] *)
Definition trim (s : jsstring) : jsstring := trimEnd (trimStart s).

(* ================================================================== *)
(** ** The regular expression of [extractUrlsFromText]

    The pattern is: http, an optional s, a colon and two slashes, then
    one or more characters that are neither whitespace nor a double quote
    nor a single quote; its flag is g. *)
(* ================================================================== *)

(** [stripPrefix p s] is the rest of [s] after the literal [p], when [s]
    starts with it. *)
Fixpoint stripPrefix (p s : jsstring) : option jsstring :=
  match p, s with
  | [], _ => Some s
  | _ :: _, [] => None
  | x :: p', y :: s' => if N.eqb x y then stripPrefix p' s' else None
  end.

(** The negated character class of the pattern: anything but whitespace,
    the double quote (34) and the single quote (39). *)
Definition isUrlChar (c : N) : bool :=
  negb (isWhiteSpace c || (c =? 34) || (c =? 39))%N.

(** The longest prefix of class characters and what follows it: the
    greedy [+] (nothing follows it in the pattern, so it never gives a
    character back). *)
Fixpoint spanUrlChars (s : jsstring) : jsstring * jsstring :=
  match s with
  | [] => ([], [])
  | c :: s' =>
      if isUrlChar c
      then let (run, rest) := spanUrlChars s' in (c :: run, rest)
      else ([], s)
  end.

(** The part of the pattern after the scheme word [scheme] (the colon,
    the two slashes and the run of class characters): the match and the
    rest of the input. *)
Definition matchAfterScheme (scheme s : jsstring)
  : option (jsstring * jsstring) :=
  match stripPrefix (lit "://") s with
  | None => None
  | Some s1 =>
      match spanUrlChars s1 with
      | ([], _) => None
      | (run, rest) => Some (scheme ++ lit "://" ++ run, rest)
      end
  end.

(** One attempt of the pattern at the start of [s].  The optional s is
    greedy: the branch with it is tried first, the branch without it on
    failure. *)
Definition matchUrlAt (s : jsstring) : option (jsstring * jsstring) :=
  match stripPrefix (lit "http") s with
  | None => None
  | Some s1 =>
      match stripPrefix (lit "s") s1 with
      | Some s2 =>
          match matchAfterScheme (lit "https") s2 with
          | Some r => Some r
          | None => matchAfterScheme (lit "http") s1
          end
      | None => matchAfterScheme (lit "http") s1
      end
  end.

Lemma stripPrefix_app p s r : stripPrefix p s = Some r -> s = p ++ r.
Proof.
  revert s; induction p as [|x p IH]; intros [|y s]; simpl; try congruence.
  destruct (N.eqb_spec x y); [|discriminate].
  intros H; rewrite (IH _ H); congruence.
Qed.

Lemma spanUrlChars_app s :
  s = fst (spanUrlChars s) ++ snd (spanUrlChars s).
Proof.
  induction s as [|c s IH]; simpl; [reflexivity|].
  destruct (isUrlChar c); [|reflexivity].
  destruct (spanUrlChars s); simpl in *; congruence.
Qed.

Lemma matchAfterScheme_app scheme s m rest :
  matchAfterScheme scheme s = Some (m, rest) ->
  scheme ++ s = m ++ rest /\ length scheme < length m.
Proof.
  unfold matchAfterScheme.
  destruct (stripPrefix (lit "://") s) as [s1|] eqn:E; [|discriminate].
  apply stripPrefix_app in E.
  pose proof (spanUrlChars_app s1) as Hs.
  destruct (spanUrlChars s1) as [[|c run] rest']; [discriminate|].
  intros [= <- <-]; simpl in Hs; subst s s1; split.
  - rewrite <- !app_assoc; reflexivity.
  - rewrite !length_app; simpl; lia.
Qed.

Lemma matchUrlAt_app s m rest :
  matchUrlAt s = Some (m, rest) -> s = m ++ rest /\ 0 < length m.
Proof.
  unfold matchUrlAt.
  destruct (stripPrefix (lit "http") s) as [s1|] eqn:E1; [|discriminate].
  apply stripPrefix_app in E1.
  assert (Hhttp : matchAfterScheme (lit "http") s1 = Some (m, rest) ->
                  s = m ++ rest /\ 0 < length m).
  { intros H; apply matchAfterScheme_app in H as [H1 H2]; subst s; split;
      [exact H1 | lia]. }
  destruct (stripPrefix (lit "s") s1) as [s2|] eqn:E2; [|exact Hhttp].
  apply stripPrefix_app in E2.
  destruct (matchAfterScheme (lit "https") s2) as [r|] eqn:E3; [|exact Hhttp].
  intros [= ->]; apply matchAfterScheme_app in E3 as [H1 H2]; subst s s1; split;
    [exact H1 | lia].
Qed.

Lemma matchUrlAt_shorter s m rest :
  matchUrlAt s = Some (m, rest) -> length rest < length s.
Proof.
  intros H; apply matchUrlAt_app in H as [-> H]; rewrite length_app; lia.
Qed.

Definition inspect {A} (a : A) : {b : A | a = b} := exist _ a eq_refl.

(** All matches of the pattern in [s], left to right: the engine tries
    the pattern at the current position, on success records the match
    and resumes right after it, on failure moves one code unit on. *)
Equations? matchAll (s : jsstring) : list jsstring by wf (length s) lt :=
  matchAll [] := [];
  matchAll (c :: s') with inspect (matchUrlAt (c :: s')) := {
    | exist _ (Some (m, rest)) _ := m :: matchAll rest;
    | exist _ None _ := matchAll s' }.
Proof.
  eapply (matchUrlAt_shorter (c :: s')); eassumption.
Qed.

(** [text.match(urlRegex)] with the [g] flag: the array of all matches, or
    [null] when there is none. *)
Definition String_match (text : jsstring) : option (list jsstring) :=
  match matchAll text with
  | [] => None
  | ms => Some ms
  end.

(** [extractUrlsFromText] (db-checker.js, lines 25-28). *)
Definition extractUrlsFromText (text : jsstring) : list jsstring :=
  match String_match text with
  | Some urls => urls
  | None => []
  end.

Example extract_ex1 :
  extractUrlsFromText (lit "see https://a.b/c and http://d 'http://e'")
  = [lit "https://a.b/c"; lit "http://d"; lit "http://e"].
Proof. vm_compute. reflexivity. Qed.

Example extract_ex2 : extractUrlsFromText (lit "http://") = [].
Proof. vm_compute. reflexivity. Qed.

Example extract_ex3 :
  extractUrlsFromText (lit "https:/x httpx://y https://") = [].
Proof. vm_compute. reflexivity. Qed.

Example trim_ex : trim (9%N :: lit "  a b ") = lit "a b".
Proof. vm_compute. reflexivity. Qed.

(* ================================================================== *)
(** ** JavaScript values, documents and [Set] *)
(* ================================================================== *)

(** The values a field of a stored document can hold, as far as the
    script tells them apart: by truthiness, [typeof v === 'string'] and
    [Array.isArray(v)].  [VObject] stands for every other object (nested
    document, ObjectId, Date, function), identified by an opaque tag. *)
Inductive jsvalue : Type :=
| VUndefined
| VNull
| VBool (b : bool)
| VNumber (n : Z)
| VNaN
| VString (s : jsstring)
| VArray (items : list jsvalue)
| VObject (tag : N).

(** [ToBoolean]: what [!value] negates. *)
Definition toBoolean (v : jsvalue) : bool :=
  match v with
  | VUndefined | VNull | VNaN => false
  | VBool b => b
  | VNumber n => negb (n =? 0)%Z
  | VString s => match s with [] => false | _ :: _ => true end
  | VArray _ | VObject _ => true
  end.

(** A document: its own enumerable properties, in the order
    [Object.keys] lists them. *)
Definition document : Type := list (jsstring * jsvalue).

Definition Object_keys (doc : document) : list jsstring := map fst doc.

Fixpoint getOwn (doc : document) (key : jsstring) : option jsvalue :=
  match doc with
  | [] => None
  | (k, v) :: doc' => if jsstring_eqb k key then Some v else getOwn doc' key
  end.

(** The property names every plain object inherits from
    [Object.prototype]; their values are functions (an object for
    [__proto__]). *)
Definition Object_prototype_keys : list jsstring :=
  [lit "constructor"; lit "__defineGetter__"; lit "__defineSetter__";
   lit "hasOwnProperty"; lit "__lookupGetter__"; lit "__lookupSetter__";
   lit "isPrototypeOf"; lit "propertyIsEnumerable"; lit "toString";
   lit "valueOf"; lit "__proto__"; lit "toLocaleString"].

(** [doc[key]]: the own property, else the inherited one, else
    [undefined]. *)
Definition get (doc : document) (key : jsstring) : jsvalue :=
  match getOwn doc key with
  | Some v => v
  | None =>
      if existsb (jsstring_eqb key) Object_prototype_keys
      then VObject 0
      else VUndefined
  end.

(** A JavaScript [Set] of strings: its elements in insertion order. *)
Definition Set_has (key : jsstring) (s : list jsstring) : bool :=
  existsb (jsstring_eqb key) s.

Definition Set_add (key : jsstring) (s : list jsstring) : list jsstring :=
  if Set_has key s then s else s ++ [key].

(* ================================================================== *)
(** ** Field sniffing (main, lines 163-177) *)
(* ================================================================== *)

(** [v.includes('http://') || v.includes('https://')] *)
Definition includesLink (v : jsstring) : bool :=
  includes (lit "http://") v || includes (lit "https://") v.

(** The callback of [Object.keys(doc).forEach] (lines 165-176). *)
Definition sniffKey (doc : document) (candidateFields : list jsstring)
           (key : jsstring) : list jsstring :=
  let value := get doc key in
  match value with
  | VString s =>
      if includesLink s then Set_add key candidateFields else candidateFields
  | VArray items =>
      if existsb (fun item => match item with
                              | VString s => includesLink s
                              | _ => false
                              end) items
      then Set_add key candidateFields
      else candidateFields
  | _ => candidateFields
  end.

(** The callback of [sampleDocs.forEach] (lines 164-177). *)
Definition sniffDoc (candidateFields : list jsstring) (doc : document)
  : list jsstring :=
  fold_left (sniffKey doc) (Object_keys doc) candidateFields.

(** [candidateFields] after the loop, from the set it started with. *)
Definition sniffFrom (candidateFields : list jsstring)
           (sampleDocs : list document) : list jsstring :=
  fold_left sniffDoc sampleDocs candidateFields.

(** Lines 163-177: [candidateFields] starts as [new Set()]. *)
Definition sniff (sampleDocs : list document) : list jsstring :=
  sniffFrom [] sampleDocs.

(* ================================================================== *)
(** ** First pass: counting (main, lines 191-215) *)
(* ================================================================== *)

(** [s.startsWith('http://') || s.startsWith('https://')] *)
Definition startsWithScheme (s : jsstring) : bool :=
  startsWith (lit "http://") s || startsWith (lit "https://") s.

(** Lines 196-212: the [urls] array of one field value. *)
Definition pass1_urls (value : jsvalue) : list jsstring :=
  let urls := [] in
  match value with
  | VString value =>
      let urls := extractUrlsFromText value in
      if (length urls =? 0) && startsWithScheme value
      then urls ++ [value]                               (* urls.push(value) *)
      else urls
  | VArray value =>
      fold_left
        (fun urls item =>
           match item with
           | VString item =>
               let extracted := extractUrlsFromText item in
               let extracted :=
                 if (length extracted =? 0) && startsWithScheme item
                 then extracted ++ [item]
                 else extracted in
               urls ++ extracted                         (* urls.concat *)
           | _ => urls
           end)
        value urls
  | _ => urls
  end.

(** The callback of [candidateFields.forEach] (lines 193-214), with the
    counter [totalLinks] it updates threaded through. *)
Definition countField (doc : document) (totalLinks : nat) (field : jsstring)
  : nat :=
  let value := get doc field in
  if negb (toBoolean value) then totalLinks        (* if (!value) return; *)
  else totalLinks + length (pass1_urls value).

(** The callback of [docs.forEach] (lines 192-215). *)
Definition countDoc (candidateFields : list jsstring) (totalLinks : nat)
           (doc : document) : nat :=
  fold_left (countField doc) candidateFields totalLinks.

(** [totalLinks] after the first pass. *)
Definition countLinks (docs : list document) (candidateFields : list jsstring)
  : nat :=
  fold_left (countDoc candidateFields) docs 0.

(* ================================================================== *)
(** ** Numbers out of strings: [isNaN] and [parseInt] *)
(* ================================================================== *)

Definition isDigit (c : N) : bool := ((48 <=? c) && (c <=? 57))%N.

Definition isHexDigit (c : N) : bool :=
  (isDigit c || ((97 <=? c) && (c <=? 102)) || ((65 <=? c) && (c <=? 70)))%N.

Definition isOctalDigit (c : N) : bool := ((48 <=? c) && (c <=? 55))%N.

Definition isBinaryDigit (c : N) : bool := ((c =? 48) || (c =? 49))%N.

(** The longest prefix of decimal digits and what follows it. *)
Fixpoint spanDigits (s : jsstring) : jsstring * jsstring :=
  match s with
  | [] => ([], [])
  | c :: s' =>
      if isDigit c
      then let (ds, rest) := spanDigits s' in (c :: ds, rest)
      else ([], s)
  end.

(** DecimalDigits: one or more decimal digits and nothing else. *)
Definition isDecimalDigits (s : jsstring) : bool :=
  match s with
  | [] => false
  | _ :: _ => forallb isDigit s
  end.

(** SignedInteger: DecimalDigits with an optional sign. *)
Definition isSignedInteger (s : jsstring) : bool :=
  match s with
  | [] => false
  | c :: d =>
      if ((c =? 43) || (c =? 45))%N then isDecimalDigits d
      else isDecimalDigits s
  end.

(** ExponentPart: [e] or [E], then a SignedInteger. *)
Definition isExponentPart (s : jsstring) : bool :=
  match s with
  | [] => false
  | c :: r => ((c =? 101) || (c =? 69))%N && isSignedInteger r
  end.

Definition isOptionalExponentPart (s : jsstring) : bool :=
  match s with
  | [] => true
  | _ :: _ => isExponentPart s
  end.

(** StrUnsignedDecimalLiteral: [Infinity], digits with an optional
    fraction and exponent, or a dot followed by digits and an optional
    exponent. *)
Definition isStrUnsignedDecimalLiteral (s : jsstring) : bool :=
  jsstring_eqb s (lit "Infinity") ||
  match spanDigits s with
  | ([], []) => false
  | ([], c :: r1) =>
      (c =? 46)%N &&
      match spanDigits r1 with
      | ([], _) => false
      | (_ :: _, r2) => isOptionalExponentPart r2
      end
  | (_ :: _, []) => true
  | (_ :: _, c :: r1) =>
      if (c =? 46)%N
      then isOptionalExponentPart (snd (spanDigits r1))
      else isExponentPart (c :: r1)
  end.

(** StrDecimalLiteral: an unsigned one with an optional sign. *)
Definition isStrDecimalLiteral (s : jsstring) : bool :=
  match s with
  | [] => false
  | c :: r =>
      if ((c =? 43) || (c =? 45))%N then isStrUnsignedDecimalLiteral r
      else isStrUnsignedDecimalLiteral s
  end.

(** NonDecimalIntegerLiteral: [0x], [0o] or [0b] (either case) and one
    or more digits of that base; no sign. *)
Definition isNonDecimalIntegerLiteral (s : jsstring) : bool :=
  match s with
  | z :: p :: d :: ds =>
      (z =? 48)%N &&
      (if ((p =? 120) || (p =? 88))%N then forallb isHexDigit (d :: ds)
       else if ((p =? 111) || (p =? 79))%N then forallb isOctalDigit (d :: ds)
       else if ((p =? 98) || (p =? 66))%N then forallb isBinaryDigit (d :: ds)
       else false)
  | _ => false
  end.

(** The strings [Number] converts to a number other than [NaN]:
    whitespace around nothing or around one numeric literal. *)
Definition isStringNumericLiteral (s : jsstring) : bool :=
  match trim s with
  | [] => true
  | t => isStrDecimalLiteral t || isNonDecimalIntegerLiteral t
  end.

(** [isNaN(s)] on a string: [Number(s)] is [NaN]. *)
Definition isNaN (s : jsstring) : bool := negb (isStringNumericLiteral s).

(** The value of a run of decimal digits. *)
Definition digitsValue (ds : jsstring) : Z :=
  fold_left (fun acc c => (10 * acc + (Z.of_N c - 48))%Z) ds 0%Z.

(** [parseInt(s, 10)]: leading whitespace is dropped, then an optional
    sign, then the longest run of decimal digits is read; [None] is
    [NaN], the result when that run is empty.  The integer is kept exact:
    the script only compares it with zero and an array length, and the
    rounding JavaScript does above 2^53 keeps a number above any array
    length. *)
Definition parseInt10 (s : jsstring) : option Z :=
  let s := trimStart s in
  let (sign, s) :=
    match s with
    | c :: r => if (c =? 45)%N then ((-1)%Z, r)
                else if (c =? 43)%N then (1%Z, r)
                else (1%Z, s)
    | [] => (1%Z, s)
    end in
  match fst (spanDigits s) with
  | [] => None
  | ds => Some (sign * digitsValue ds)%Z
  end.

(** Comparisons with a number that may be [NaN]: false on [NaN]. *)
Definition Number_lt (a : option Z) (b : Z) : bool :=
  match a with Some x => (x <? b)%Z | None => false end.

Definition Number_ge (a : option Z) (b : Z) : bool :=
  match a with Some x => (x >=? b)%Z | None => false end.

(** [a - 1] *)
Definition Number_pred (a : option Z) : option Z :=
  match a with Some x => Some (x - 1)%Z | None => None end.

(** [xs[index]] for a number [index]: [undefined] ([None]) outside the
    array and on [NaN]. *)
Definition Array_get {A} (xs : list A) (index : option Z) : option A :=
  match index with
  | Some i => if (i <? 0)%Z then None else nth_error xs (Z.to_nat i)
  | None => None
  end.

(** The decimal digits of [n], most significant first, written with at
    most [fuel] digits. *)
Fixpoint decimalFuel (fuel n : nat) : jsstring :=
  match fuel with
  | 0 => []
  | S fuel' =>
      if n <? 10 then [N.of_nat (48 + n)]
      else decimalFuel fuel' (n / 10) ++ [N.of_nat (48 + n mod 10)]
  end.

(** The string of a natural number, as a template literal prints it.
    A number has no more digits than its value plus one. *)
Definition decimal (n : nat) : jsstring := decimalFuel (S n) n.

Example decimal_ex : decimal 1207 = lit "1207".
Proof. vm_compute. reflexivity. Qed.

Example isNaN_ex :
  map isNaN [lit ""; lit "12"; lit " 12 "; lit "1.5"; lit "1."; lit ".5";
             lit "1e3"; lit "-2E-3"; lit "0x1F"; lit "0b101"; lit "Infinity";
             lit "-Infinity"]
  = [false; false; false; false; false; false;
     false; false; false; false; false; false]
  /\ map isNaN [lit "abc"; lit "12abc"; lit "."; lit "1e"; lit "e5";
                lit "-0x1F"; lit "0x"; lit "infinity"; lit "+-1"; lit "1 2";
                lit "1_0"; lit "0o8"]
     = [true; true; true; true; true; true; true; true; true; true;
        true; true].
Proof. split; vm_compute; reflexivity. Qed.

Example parseInt10_ex :
  map parseInt10 [lit "12"; lit "  -7x"; lit "+3.9"; lit "1e3"; lit "0x10";
                  lit ""; lit "Infinity"; lit ".5"; lit "-"]
  = [Some 12; Some (-7); Some 3; Some 1; Some 0; None; None; None; None]%Z.
Proof. vm_compute. reflexivity. Qed.

(* ================================================================== *)
(** ** Choosing the database and the collection (main, lines 101-156) *)
(* ================================================================== *)

(** How one of the two selection blocks ends. *)
Inductive selection : Type :=
| Chosen (name : jsstring)
    (* the block falls through with this name selected *)
| Refused (message : jsstring)
    (* console.error(message); process.exit(1) *)
| NameOfUndefined.
    (* reading .name of undefined throws a TypeError *)

(** The menu lines of [forEach((db, index) => ...)] (lines 102-104 and
    134-136), from position [index] on. *)
Fixpoint menuFrom (index : nat) (names : list jsstring) : list jsstring :=
  match names with
  | [] => []
  | name :: names' =>
      (decimal (index + 1) ++ lit ". " ++ name) :: menuFrom (S index) names'
  end.

Definition menu (names : list jsstring) : list jsstring := menuFrom 0 names.

(** Lines 107-123.  [databases] holds the [name] of each entry of
    [dbsResult.databases]; [dbAnswer] is what the prompt resolved to. *)
Definition selectDatabase (databases : list jsstring) (dbAnswer : jsstring)
  : selection :=
  let dbAnswer := trim dbAnswer in
  let selectedDbName := dbAnswer in
  if negb (isNaN dbAnswer) then
    let index := Number_pred (parseInt10 dbAnswer) in
    if Number_lt index 0 || Number_ge index (Z.of_nat (length databases))
    then Refused (lit "Invalid selection. Exiting.")
    else
      match Array_get databases index with
      | Some name => Chosen name
      | None => NameOfUndefined
      end
  else
    let exists_ :=
      existsb (fun db => jsstring_eqb db selectedDbName) databases in
    if negb exists_
    then Refused (lit "Database name not found. Exiting.")
    else Chosen selectedDbName.

(** Lines 129-155.  [collections] holds the [name] of each listed
    collection; the prompt is not reached when there is none. *)
Definition selectCollection (collections : list jsstring)
           (collAnswer : jsstring) : selection :=
  if length collections =? 0 then
    Refused (lit "No collections found in the selected database. Exiting.")
  else
    let collAnswer := trim collAnswer in
    let selectedCollectionName := collAnswer in
    if negb (isNaN collAnswer) then
      let index := Number_pred (parseInt10 collAnswer) in
      if Number_lt index 0 || Number_ge index (Z.of_nat (length collections))
      then Refused (lit "Invalid collection selection. Exiting.")
      else
        match Array_get collections index with
        | Some name => Chosen name
        | None => NameOfUndefined
        end
    else
      let exists_ :=
        existsb (fun coll => jsstring_eqb coll selectedCollectionName)
                collections in
      if negb exists_
      then Refused (lit "Collection name not found. Exiting.")
      else Chosen selectedCollectionName.

Example selectDatabase_ex :
  map (selectDatabase [lit "admin"; lit "shop"; lit "2024"])
      [lit "2"; lit " shop "; lit "2024"; lit "0"; lit "nope"; lit "";
       lit "1.9"; lit "0x2"]
  = [Chosen (lit "shop"); Chosen (lit "shop");
     Refused (lit "Invalid selection. Exiting.");
     Refused (lit "Invalid selection. Exiting.");
     Refused (lit "Database name not found. Exiting.");
     NameOfUndefined;
     Chosen (lit "admin");
     Refused (lit "Invalid selection. Exiting.")].
Proof. vm_compute. reflexivity. Qed.

(* ================================================================== *)
(** ** Effects: the network, the console and the process *)
(* ================================================================== *)

Inductive method : Type := GET | HEAD.

(** A JavaScript [Error], as far as the script looks at it. *)
Record Error : Type := { message : jsstring }.

(** What [fetch] resolves to: the status code, and what [response.text()]
    will resolve to (the body) or reject with. *)
Record Response : Type := {
  status : Z;
  text : jsstring + Error
}.

(** What the script writes and does to the outside, in order.  Lines of
    fixed text carry their text; template lines carry the values they
    interpolate. *)
Inductive output : Type :=
| ConsoleLog (line : jsstring)
| LogField (field : jsstring)                                 (* line 185 *)
| LogTotal (totalLinks : nat)                                 (* line 217 *)
| LogBroken (field : jsstring) (id : jsvalue) (url : jsstring)
            (currentLink totalLinks : nat)                    (* line 247 *)
| WriteProgress (currentLink totalLinks : nat)                (* line 250 *)
| LogComplete (documents brokenLinksCount : nat)              (* line 256 *)
| ErrorChecking (url : jsstring) (reason : jsstring)          (* line 65 *)
| ErrorOccurred (error : Error)                               (* line 258 *)
| ClientClose.                                                (* line 260 *)

(** How a piece of the script ends: it returns, throws, or the process
    exits. *)
Inductive outcome (A : Type) : Type :=
| Ret (a : A)
| Throw (error : Error)
| Exit (code : Z).
Arguments Ret {A} a.
Arguments Throw {A} error.
Arguments Exit {A} code.

(** How the objects of a run convert to strings: for each tag, the
    string or the error thrown. *)
Definition Conversion : Type := N -> jsstring + Error.

Section Script.

(** The network: a state and the transport [fetch(url, {method})], which
    resolves to a response or rejects with an error, and moves the
    network on. *)
Variable Net : Type.
Variable fetch : Net -> jsstring -> method -> (Response + Error) * Net.

(** Converting an object to a string (its [toString], then its
    [valueOf]): for the object with a given tag, the string it gives or
    the error the conversion throws.  A plain object whose own
    [toString] is not a function throws a TypeError, since the inherited
    [valueOf] returns the object itself. *)
Variable objectToString : Conversion.

Record World : Type := {
  net : Net;
  requests : list (jsstring * method);   (* fetches issued, oldest first *)
  console : list output                  (* oldest first *)
}.

Definition M (A : Type) : Type := World -> outcome A * World.

Definition ret {A} (a : A) : M A := fun w => (Ret a, w).

Definition bind {A B} (c : M A) (k : A -> M B) : M B :=
  fun w =>
    match c w with
    | (Ret a, w') => k a w'
    | (Throw e, w') => (Throw e, w')
    | (Exit n, w') => (Exit n, w')
    end.

Notation "x <- c ;; k" := (bind c (fun x => k))
  (at level 61, c at next level, right associativity).
Notation "c ;; k" := (bind c (fun _ => k))
  (at level 61, right associativity).

(** [try { c } catch (error) { handler error }] *)
Definition try_catch {A} (c : M A) (handler : Error -> M A) : M A :=
  fun w =>
    match c w with
    | (Throw e, w') => handler e w'
    | r => r
    end.

(** [try { c } finally { f }]: [f] runs when [c] returns or throws, not
    when the process has exited. *)
Definition try_finally {A} (c : M A) (f : M unit) : M A :=
  fun w =>
    match c w with
    | (Ret a, w') => (f ;; ret a) w'
    | (Throw e, w') => (f ;; (fun w'' => (Throw e, w''))) w'
    | (Exit n, w') => (Exit n, w')
    end.

Definition process_exit {A} (code : Z) : M A := fun w => (Exit code, w).

(** The world after one more line on the console. *)
Definition logged (w : World) (o : output) : World :=
  {| net := net w; requests := requests w; console := console w ++ [o] |}.

(** The world after one more fetch, which left the network in [n]. *)
Definition fetched (w : World) (n : Net) (url : jsstring) (m : method)
  : World :=
  {| net := n; requests := requests w ++ [(url, m)]; console := console w |}.

Definition emit (o : output) : M unit := fun w => (Ret tt, logged w o).

(** [await fetch(url, { method })] *)
Definition await_fetch (url : jsstring) (m : method) : M Response :=
  fun w =>
    let (r, n) := fetch (net w) url m in
    match r with
    | inl response => (Ret response, fetched w n url m)
    | inr error => (Throw error, fetched w n url m)
    end.

(** [await response.text()] *)
Definition await_text (response : Response) : M jsstring :=
  fun w =>
    match text response with
    | inl body => (Ret body, w)
    | inr error => (Throw error, w)
    end.

(** A [for (const x of xs)] loop whose body updates the loop-carried
    variables [st]. *)
Fixpoint for_of {A S} (xs : list A) (body : S -> A -> M S) (st : S) : M S :=
  match xs with
  | [] => ret st
  | x :: xs' => st' <- body st x ;; for_of xs' body st'
  end.

(* ================================================================== *)
(** ** [checkUrl] (lines 37-68) *)
(* ================================================================== *)

Definition unavailablePhrases : list jsstring :=
  [lit "This video is no longer available";
   lit "Video unavailable";
   lit "This video is private";
   lit "has been removed"].

Definition isYouTube (url : jsstring) : bool :=
  includes (lit "youtube.com") url || includes (lit "youtu.be") url.

(** The [try] block of [checkUrl] (lines 39-63). *)
Definition checkUrl_try (url : jsstring) : M bool :=
  if negb (toBoolean (VString url)) || jsstring_eqb (trim url) []
  then ret false
  else
    if isYouTube url then
      response <- await_fetch url GET ;;
      text <- await_text response ;;
      ret (existsb (fun phrase => includes phrase text) unavailablePhrases)
    else
      response <- await_fetch url HEAD ;;
      if (status response =? 404)%Z then
        response <- await_fetch url GET ;;
        ret (status response =? 404)%Z
      else ret false.

Definition checkUrl (url : jsstring) : M bool :=
  try_catch
    (checkUrl_try url)
    (fun error =>
       emit (ErrorChecking url (message error)) ;;
       ret true).

(* ================================================================== *)
(** ** Second pass: checking (main, lines 218-254) *)
(* ================================================================== *)

(** Lines 226-242: the [urls] array of one field value. *)
Definition pass2_urls (value : jsvalue) : list jsstring :=
  let urls := [] in
  match value with
  | VString value =>
      let urls := extractUrlsFromText value in
      if (length urls =? 0) && startsWithScheme value
      then urls ++ [value]
      else urls
  | VArray value =>
      fold_left
        (fun urls item =>
           match item with
           | VString item =>
               let extracted := extractUrlsFromText item in
               let extracted :=
                 if (length extracted =? 0) && startsWithScheme item
                 then extracted ++ [item]
                 else extracted in
               urls ++ extracted
           | _ => urls
           end)
        value urls
  | _ => urls
  end.

(** The loop-carried variables of the second pass. *)
Record counters : Type := {
  currentLink : nat;
  brokenLinksCount : nat
}.

(** The error that converting a value to a string throws, if it throws
    one.  Strings, numbers, booleans, [null] and [undefined] always
    convert; an array converts its elements in order (it joins them), so
    it throws what its first throwing element throws; an object converts
    as [objectToString] says. *)
Fixpoint ToString_throws (v : jsvalue) : option Error :=
  match v with
  | VObject tag =>
      match objectToString tag with
      | inl _ => None
      | inr error => Some error
      end
  | VArray items =>
      (fix first (items : list jsvalue) : option Error :=
         match items with
         | [] => None
         | item :: items' =>
             match ToString_throws item with
             | Some error => Some error
             | None => first items'
             end
         end) items
  | _ => None
  end.

(** An interpolation of [v] in a template literal: it converts [v] to a
    string, which may throw. *)
Definition interpolate (v : jsvalue) : M unit :=
  fun w =>
    match ToString_throws v with
    | Some error => (Throw error, w)
    | None => (Ret tt, w)
    end.

(** The body of [for (const url of urls)] (lines 244-251).  The template
    literal of line 247 is evaluated before [console.log] is called; of
    the values it interpolates only [doc._id] can fail to convert, the
    others being strings and numbers. *)
Definition checkLink (doc : document) (field : jsstring) (totalLinks : nat)
           (st : counters) (url : jsstring) : M counters :=
  let currentLink := currentLink st + 1 in
  broken <- checkUrl url ;;
  if broken then
    interpolate (get doc (lit "_id")) ;;
    emit (LogBroken field (get doc (lit "_id")) url currentLink totalLinks) ;;
    ret {| currentLink := currentLink;
           brokenLinksCount := brokenLinksCount st + 1 |}
  else
    emit (WriteProgress currentLink totalLinks) ;;
    ret {| currentLink := currentLink;
           brokenLinksCount := brokenLinksCount st |}.

(** The body of [for (const field of candidateFields)] (lines 224-252). *)
Definition checkField (doc : document) (totalLinks : nat)
           (st : counters) (field : jsstring) : M counters :=
  let value := get doc field in
  if negb (toBoolean value) then ret st               (* continue *)
  else for_of (pass2_urls value) (checkLink doc field totalLinks) st.

(** The body of [for (const doc of docs)] (lines 223-253). *)
Definition checkDoc (candidateFields : list jsstring) (totalLinks : nat)
           (st : counters) (doc : document) : M counters :=
  for_of candidateFields (checkField doc totalLinks) st.

(** Lines 218-254. *)
Definition checkLinks (docs : list document) (candidateFields : list jsstring)
           (totalLinks : nat) : M counters :=
  for_of docs (checkDoc candidateFields totalLinks)
         {| currentLink := 0; brokenLinksCount := 0 |}.

(* ================================================================== *)
(** ** [main] from the sample query on (lines 160-262) *)
(* ================================================================== *)

(** The part of [main] that runs once a collection is selected.
    [sampleDocs] is what [collection.find({}).limit(10).toArray()]
    resolved to and [docs] what [collection.find({}).toArray()] resolved
    to. *)
Definition main (sampleDocs docs : list document) : M unit :=
  try_finally
    (try_catch
       (emit (ConsoleLog (10%N :: lit "Inspecting sample documents to detect fields containing links...")) ;;
        let candidateFields := sniff sampleDocs in
        (if length candidateFields =? 0 then
           emit (ConsoleLog (lit "No fields containing links were detected in the sample documents.")) ;;
           process_exit 0
         else ret tt) ;;
        emit (ConsoleLog (lit "Detected fields that may contain links:")) ;;
        for_of candidateFields (fun _ field => emit (LogField field)) tt ;;
        let totalLinks := countLinks docs candidateFields in
        emit (LogTotal totalLinks) ;;
        st <- checkLinks docs candidateFields totalLinks ;;
        emit (LogComplete (length docs) (brokenLinksCount st)))
       (fun error => emit (ErrorOccurred error)))
    (emit ClientClose ;; process_exit 0).

(* ================================================================== *)
(** ** Vocabulary of the statements *)
(* ================================================================== *)

(** The guard of [checkUrl] (line 39). *)
Definition blank (url : jsstring) : bool :=
  negb (toBoolean (VString url)) || jsstring_eqb (trim url) [].

(** A string holds a link marker: [http://] or [https://] occurs in it. *)
Definition ContainsLink (s : jsstring) : Prop :=
  exists a b, s = a ++ lit "http://" ++ b \/ s = a ++ lit "https://" ++ b.

(** A field value qualifies: it is a string holding a link marker, or an
    array with an element that is such a string. *)
Definition HasLinkValue (v : jsvalue) : Prop :=
  (exists s, v = VString s /\ ContainsLink s) \/
  (exists items s, v = VArray items /\ In (VString s) items /\ ContainsLink s).

(** One unit of work: a document, a field name and a URL found there. *)
Definition occurrence : Type := (document * jsstring * jsstring)%type.

(** The occurrences of one field of one document, given how a pass
    builds its [urls] array: none when the value is falsy. *)
Definition fieldOccurrences (urlsOf : jsvalue -> list jsstring)
           (doc : document) (field : jsstring) : list occurrence :=
  let value := get doc field in
  if negb (toBoolean value) then []
  else map (fun url => (doc, field, url)) (urlsOf value).

(** Documents in array order, then fields in set order, then URLs in
    array order. *)
Definition enumerate (urlsOf : jsvalue -> list jsstring)
           (docs : list document) (fields : list jsstring)
  : list occurrence :=
  flat_map (fun doc => flat_map (fieldOccurrences urlsOf doc) fields) docs.

Definition pass1_occurrences := enumerate pass1_urls.
Definition pass2_occurrences := enumerate pass2_urls.

(** Lines 244-251 on one occurrence. *)
Definition checkOccurrence (totalLinks : nat) (st : counters)
           (occ : occurrence) : M counters :=
  let '(doc, field, url) := occ in checkLink doc field totalLinks st url.

(** The running index a console line reports, if it reports one. *)
Definition linkIndex (o : output) : option nat :=
  match o with
  | LogBroken _ _ _ currentLink _ => Some currentLink
  | WriteProgress currentLink _ => Some currentLink
  | _ => None
  end.

Definition linkIndices (out : list output) : list nat :=
  flat_map (fun o => match linkIndex o with
                     | Some i => [i]
                     | None => []
                     end) out.

Definition isLogBroken (o : output) : bool :=
  match o with LogBroken _ _ _ _ _ => true | _ => false end.

(** The final line of a completed run, or the total: the lines that
    report how many links were checked. *)
Definition isSummaryLine (o : output) : bool :=
  match o with
  | LogComplete _ _ | LogTotal _ => true
  | _ => false
  end.

(** Some fetch made while checking [url] in world [w] fails with [e],
    leaving the world [w1]: the content fetch of a video URL or the
    reading of its body, the probe of another URL, or the full fetch
    after a 404 probe. *)
Inductive raises (url : jsstring) (w : World) : Error -> World -> Prop :=
| raises_content_fetch e n :
    blank url = false -> isYouTube url = true ->
    fetch (net w) url GET = (inr e, n) ->
    raises url w e (fetched w n url GET)
| raises_content_read r e n :
    blank url = false -> isYouTube url = true ->
    fetch (net w) url GET = (inl r, n) -> text r = inr e ->
    raises url w e (fetched w n url GET)
| raises_probe e n :
    blank url = false -> isYouTube url = false ->
    fetch (net w) url HEAD = (inr e, n) ->
    raises url w e (fetched w n url HEAD)
| raises_escalation r e n1 n2 :
    blank url = false -> isYouTube url = false ->
    fetch (net w) url HEAD = (inl r, n1) -> status r = 404%Z ->
    fetch n1 url GET = (inr e, n2) ->
    raises url w e (fetched (fetched w n1 url HEAD) n2 url GET).

(** A text the pattern can match as a whole: a scheme and one or more
    class characters. *)
Definition UrlShaped (u : jsstring) : Prop :=
  exists scheme c run,
    (scheme = lit "http://" \/ scheme = lit "https://") /\
    u = scheme ++ c :: run /\
    forallb isUrlChar (c :: run) = true.

(** Nothing of the class follows: the end of the text or a character
    outside the class. *)
Definition StopsRun (rest : jsstring) : Prop :=
  rest = [] \/ exists d r, rest = d :: r /\ isUrlChar d = false.

(** [gap1 ++ url1 ++ gap2 ++ url2 ++ ... ++ last]. *)
Fixpoint interleave (gaps urls : list jsstring) (last : jsstring) : jsstring :=
  match gaps, urls with
  | g :: gaps', u :: urls' => g ++ u ++ interleave gaps' urls' last
  | _, _ => last
  end.

(** Somewhere in the text a scheme is followed by a class character. *)
Definition HasUrlStart (text : jsstring) : Prop :=
  exists a scheme c b,
    (scheme = lit "http://" \/ scheme = lit "https://") /\
    text = a ++ scheme ++ c :: b /\ isUrlChar c = true.

(** The world after some more lines on the console. *)
Definition wrote (w : World) (out : list output) : World :=
  {| net := net w; requests := requests w; console := console w ++ out |}.

(** The lines the second pass writes for a list of occurrences when its
    running index stands at [i]: for each occurrence in turn, at most one
    error line for its URL, then either the broken-link line of that
    occurrence or a progress line, with the next index and the total. *)
Inductive passLines (totalLinks : nat)
  : nat -> list occurrence -> list output -> Prop :=
| passLines_nil i : passLines totalLinks i [] []
| passLines_cons i doc field url occs errs line out :
    errs = [] \/ (exists reason, errs = [ErrorChecking url reason]) ->
    line = LogBroken field (get doc (lit "_id")) url (i + 1) totalLinks \/
    line = WriteProgress (i + 1) totalLinks ->
    passLines totalLinks (i + 1) occs out ->
    passLines totalLinks i ((doc, field, url) :: occs) (errs ++ line :: out).

(** The fetches one check can issue, by kind of URL. *)
Definition checkRequests (url : jsstring) (new : list (jsstring * method))
  : Prop :=
  (blank url = true /\ new = []) \/
  (blank url = false /\ isYouTube url = true /\ new = [(url, GET)]) \/
  (blank url = false /\ isYouTube url = false /\
   (new = [(url, HEAD)] \/ new = [(url, HEAD); (url, GET)])).

(** The wording of the collection block for each message of the database
    block. *)
Definition collectionWording (s : selection) : selection :=
  match s with
  | Refused m =>
      if jsstring_eqb m (lit "Invalid selection. Exiting.")
      then Refused (lit "Invalid collection selection. Exiting.")
      else if jsstring_eqb m (lit "Database name not found. Exiting.")
           then Refused (lit "Collection name not found. Exiting.")
           else Refused m
  | _ => s
  end.

(* ================================================================== *)
(** ** Facts about strings *)
(* ================================================================== *)

Lemma jsstring_eqb_eq a b : jsstring_eqb a b = true <-> a = b.
Proof.
  revert b; induction a as [|x a IH]; intros [|y b]; simpl;
    try (split; congruence).
  rewrite andb_true_iff, N.eqb_eq, IH; split.
  - intros [-> ->]; reflexivity.
  - intros [= -> ->]; split; reflexivity.
Qed.

Lemma jsstring_eqb_refl a : jsstring_eqb a a = true.
Proof. apply jsstring_eqb_eq; reflexivity. Qed.

Lemma startsWith_iff p s : startsWith p s = true <-> exists r, s = p ++ r.
Proof.
  revert s; induction p as [|x p IH]; intros s; simpl.
  - split; [intros _; exists s; reflexivity | reflexivity].
  - destruct s as [|y s].
    + split; [discriminate | intros [r H]; discriminate].
    + rewrite andb_true_iff, N.eqb_eq, IH; split.
      * intros [-> [r ->]]; exists r; reflexivity.
      * intros [r [= -> ->]]; split; [reflexivity | exists r; reflexivity].
Qed.

Lemma includes_iff p s :
  includes p s = true <-> exists a b, s = a ++ p ++ b.
Proof.
  induction s as [|y s IH]; simpl; rewrite orb_true_iff, startsWith_iff.
  - split.
    + intros [[r H]|H]; [exists [], r; exact H | discriminate].
    + intros [a [b H]]; left; destruct a; [exists b; exact H | discriminate].
  - rewrite IH; split.
    + intros [[r H]|[a [b H]]].
      * exists [], r; exact H.
      * exists (y :: a), b; simpl; congruence.
    + intros [[|x a] [b H]].
      * left; exists b; exact H.
      * right; exists a, b; simpl in H; congruence.
Qed.

Lemma stripPrefix_of_app p r : stripPrefix p (p ++ r) = Some r.
Proof.
  induction p as [|x p IH]; simpl; [reflexivity|].
  rewrite N.eqb_refl; exact IH.
Qed.

Lemma trimStart_nil_iff s :
  trimStart s = [] <-> forallb isWhiteSpace s = true.
Proof.
  induction s as [|c s IH]; simpl; [tauto|].
  destruct (isWhiteSpace c); simpl; [exact IH | split; discriminate].
Qed.

Lemma trimStart_head s c s' :
  trimStart s = c :: s' -> isWhiteSpace c = false.
Proof.
  induction s as [|x s IH]; simpl; [discriminate|].
  destruct (isWhiteSpace x) eqn:E; [exact IH | congruence].
Qed.

Lemma forallb_rev {A} (f : A -> bool) l :
  forallb f (rev l) = forallb f l.
Proof.
  induction l as [|x l IH]; simpl; [reflexivity|].
  rewrite forallb_app, IH; simpl; rewrite andb_true_r; apply andb_comm.
Qed.

(** [trim] leaves nothing exactly when every code unit is whitespace. *)
Lemma trim_nil_iff s : trim s = [] <-> forallb isWhiteSpace s = true.
Proof.
  unfold trim, trimEnd; split.
  - intros H.
    assert (H' : trimStart (rev (trimStart s)) = []).
    { destruct (trimStart (rev (trimStart s))); [reflexivity|].
      apply (f_equal (@length N)) in H; rewrite length_rev in H;
        discriminate. }
    apply trimStart_nil_iff in H'; rewrite forallb_rev in H'.
    destruct (trimStart s) as [|c s'] eqn:E; [apply trimStart_nil_iff, E|].
    apply trimStart_head in E; simpl in H'; rewrite E in H'; discriminate.
  - intros H; apply trimStart_nil_iff in H; rewrite H; reflexivity.
Qed.

(** The guard of [checkUrl] fires exactly on URLs that are empty or made
    of whitespace only. *)
Lemma blank_iff url : blank url = true <-> forallb isWhiteSpace url = true.
Proof.
  unfold blank; rewrite orb_true_iff, jsstring_eqb_eq, trim_nil_iff.
  destruct url as [|c url]; simpl; [tauto|].
  split; [intros [H|H]; [discriminate | exact H] | right; assumption].
Qed.

Lemma includes_not_blank p c url :
  In c p -> isWhiteSpace c = false -> includes p url = true ->
  blank url = false.
Proof.
  intros Hc Hw H; apply includes_iff in H as [a [b ->]].
  destruct (blank (a ++ p ++ b)) eqn:E; [|reflexivity].
  apply blank_iff in E; rewrite !forallb_app, !andb_true_iff in E.
  destruct E as [_ [E _]]; rewrite forallb_forall in E.
  rewrite (E c Hc) in Hw; discriminate.
Qed.

Lemma isYouTube_not_blank url : isYouTube url = true -> blank url = false.
Proof.
  unfold isYouTube; rewrite orb_true_iff; intros [H|H];
    (eapply (includes_not_blank _ 121%N); [| |exact H];
     [vm_compute; tauto | reflexivity]).
Qed.

Lemma includes_app p a s b :
  includes p s = true -> includes p (a ++ s ++ b) = true.
Proof.
  rewrite !includes_iff; intros [x [y ->]].
  exists (a ++ x), (y ++ b); rewrite <- !app_assoc; reflexivity.
Qed.

(* ================================================================== *)
(** ** Facts about the pattern *)
(* ================================================================== *)

Lemma matchAll_match c s' m rest :
  matchUrlAt (c :: s') = Some (m, rest) ->
  matchAll (c :: s') = m :: matchAll rest.
Proof.
  intros H; simp matchAll.
  destruct (inspect (matchUrlAt (c :: s'))) as [[[m' rest']|] E]; simpl;
    rewrite E in H; congruence.
Qed.

Lemma matchAll_skip c s' :
  matchUrlAt (c :: s') = None -> matchAll (c :: s') = matchAll s'.
Proof.
  intros H; simp matchAll.
  destruct (inspect (matchUrlAt (c :: s'))) as [[[m' rest']|] E]; simpl;
    rewrite E in H; congruence.
Qed.

Lemma spanUrlChars_all s :
  forallb isUrlChar s = true -> spanUrlChars s = (s, []).
Proof.
  induction s as [|c s IH]; simpl; [reflexivity|].
  rewrite andb_true_iff; intros [-> H]; rewrite (IH H); reflexivity.
Qed.

Lemma matchAfterScheme_run scheme c run :
  forallb isUrlChar (c :: run) = true ->
  matchAfterScheme scheme (lit "://" ++ c :: run)
  = Some (scheme ++ lit "://" ++ c :: run, []).
Proof.
  intros H; unfold matchAfterScheme.
  rewrite stripPrefix_of_app, (spanUrlChars_all _ H); reflexivity.
Qed.

(** The pattern matches a whole scheme-prefixed run of class characters,
    provided the run is not empty. *)
Lemma matchUrlAt_whole scheme c run :
  scheme = lit "http://" \/ scheme = lit "https://" ->
  forallb isUrlChar (c :: run) = true ->
  matchUrlAt (scheme ++ c :: run) = Some (scheme ++ c :: run, []).
Proof.
  intros [-> | ->] H; unfold matchUrlAt.
  - change (lit "http://" ++ c :: run)
      with (lit "http" ++ lit "://" ++ c :: run).
    rewrite stripPrefix_of_app.
    change (stripPrefix (lit "s") (lit "://" ++ c :: run)) with (@None jsstring).
    rewrite (matchAfterScheme_run _ _ _ H); reflexivity.
  - change (lit "https://" ++ c :: run)
      with (lit "http" ++ lit "s" ++ lit "://" ++ c :: run).
    rewrite stripPrefix_of_app.
    rewrite stripPrefix_of_app.
    rewrite (matchAfterScheme_run _ _ _ H); reflexivity.
Qed.

Lemma extract_whole scheme c run :
  scheme = lit "http://" \/ scheme = lit "https://" ->
  forallb isUrlChar (c :: run) = true ->
  extractUrlsFromText (scheme ++ c :: run) = [scheme ++ c :: run].
Proof.
  intros Hs H; unfold extractUrlsFromText, String_match.
  pose proof (matchUrlAt_whole _ _ _ Hs H) as Hm.
  assert (Hc : exists x xs, scheme ++ c :: run = x :: xs)
    by (destruct Hs as [-> | ->]; eexists; eexists; reflexivity).
  destruct Hc as [x [xs Hc]]; rewrite Hc in *.
  rewrite (matchAll_match _ _ _ _ Hm); simp matchAll; reflexivity.
Qed.

(* ================================================================== *)
(** ** Facts about [Set] and sniffing *)
(* ================================================================== *)

Lemma Set_has_iff key s : Set_has key s = true <-> In key s.
Proof.
  unfold Set_has; rewrite existsb_exists; split.
  - intros [x [Hx H]]; apply jsstring_eqb_eq in H; subst; exact Hx.
  - intros H; exists key; split; [exact H | apply jsstring_eqb_refl].
Qed.

Lemma Set_add_iff k key s : In k (Set_add key s) <-> In k s \/ k = key.
Proof.
  unfold Set_add; destruct (Set_has key s) eqn:E.
  - apply Set_has_iff in E; split; [tauto | intros [H | ->]; assumption].
  - rewrite in_app_iff; simpl; intuition congruence.
Qed.

Lemma includesLink_iff s : includesLink s = true <-> ContainsLink s.
Proof.
  unfold includesLink, ContainsLink; rewrite orb_true_iff, !includes_iff.
  split.
  - intros [[a [b H]] | [a [b H]]]; exists a, b; tauto.
  - intros [a [b [H | H]]]; [left | right]; exists a, b; exact H.
Qed.

Lemma sniffKey_iff doc candidateFields key k :
  In k (sniffKey doc candidateFields key) <->
  In k candidateFields \/ (k = key /\ HasLinkValue (get doc key)).
Proof.
  unfold sniffKey, HasLinkValue.
  destruct (get doc key) as [| | | | |s|items|] eqn:E;
    try (split; [tauto | intros [H | [_ [[s [H _]] | [i [s [H _]]]]]];
                         [exact H | discriminate | discriminate]]).
  - destruct (includesLink s) eqn:L.
    + rewrite Set_add_iff; apply includesLink_iff in L; split.
      * intros [H | H]; [tauto | right; split; [exact H|]].
        left; exists s; tauto.
      * tauto.
    + split; [tauto | intros [H | [_ [[s' [[= <-] H]] | [i [s' [H _]]]]]]].
      * exact H.
      * apply includesLink_iff in H; congruence.
      * discriminate.
  - match goal with |- context [existsb ?f items] => destruct (existsb f items) eqn:L end.
    + rewrite Set_add_iff; apply existsb_exists in L as [item [Hi L]].
      destruct item; try discriminate; apply includesLink_iff in L; split.
      * intros [H | H]; [tauto | right; split; [exact H|]].
        right; eexists; eexists; repeat split; eassumption.
      * tauto.
    + split; [tauto | intros [H | [_ [[s' [H _]] | [i [s' [[= <-] [Hi H]]]]]]]].
      * exact H.
      * discriminate.
      * apply includesLink_iff in H.
        assert (X : existsb (fun item => match item with
                                          | VString s => includesLink s
                                          | _ => false
                                          end) items = true)
          by (apply existsb_exists; exists (VString s'); tauto).
        congruence.
Qed.

Lemma sniffKeys_iff doc keys candidateFields k :
  In k (fold_left (sniffKey doc) keys candidateFields) <->
  In k candidateFields \/ (In k keys /\ HasLinkValue (get doc k)).
Proof.
  revert candidateFields; induction keys as [|key keys IH]; intros acc; simpl.
  - tauto.
  - rewrite IH, sniffKey_iff; split.
    + intros [[H | [-> H]] | H]; tauto.
    + intros [H | [[<- | H] L]]; tauto.
Qed.

Lemma sniffFrom_iff sampleDocs candidateFields k :
  In k (sniffFrom candidateFields sampleDocs) <->
  In k candidateFields \/
  exists doc, In doc sampleDocs /\ In k (Object_keys doc) /\
              HasLinkValue (get doc k).
Proof.
  unfold sniffFrom; revert candidateFields.
  induction sampleDocs as [|d docs IH]; intros acc; simpl.
  - split; [tauto | intros [H | [doc [[] _]]]; exact H].
  - rewrite IH; unfold sniffDoc; rewrite sniffKeys_iff; split.
    + intros [[H | H] | [doc [H1 H2]]]; [tauto | right; exists d; tauto |].
      right; exists doc; tauto.
    + intros [H | [doc [[<- | H1] H2]]]; [tauto | tauto |].
      right; exists doc; tauto.
Qed.

Lemma sniffFrom_app candidateFields docs later :
  sniffFrom candidateFields (docs ++ later)
  = sniffFrom (sniffFrom candidateFields docs) later.
Proof. apply fold_left_app. Qed.

(** C5. A field name is in the candidate set after sniffing exactly when
    some sampled document has that field with a value that is a string
    containing [http://] or [https://], or an array with such a string
    among its elements; and a name that is in the set stays in it
    whatever documents are sniffed afterwards. *)
Theorem sniff_sound_complete_monotone :
  (forall sampleDocs key,
      In key (sniff sampleDocs) <->
      exists doc, In doc sampleDocs /\ In key (Object_keys doc) /\
                  HasLinkValue (get doc key))
  /\
  (forall sampleDocs later key,
      In key (sniff sampleDocs) -> In key (sniff (sampleDocs ++ later))).
Proof.
  split.
  - intros sampleDocs key; unfold sniff; rewrite sniffFrom_iff.
    split; [intros [[] | H]; exact H | tauto].
  - intros sampleDocs later key H; unfold sniff.
    rewrite sniffFrom_app; apply sniffFrom_iff; left; exact H.
Qed.

(* ================================================================== *)
(** ** The enumeration behind the two passes *)
(* ================================================================== *)

Lemma pass_urls_same value : pass1_urls value = pass2_urls value.
Proof. destruct value; reflexivity. Qed.

Lemma enumerate_same docs fields :
  pass1_occurrences docs fields = pass2_occurrences docs fields.
Proof.
  unfold pass1_occurrences, pass2_occurrences, enumerate.
  apply flat_map_ext; intros doc; apply flat_map_ext; intros field.
  unfold fieldOccurrences; rewrite pass_urls_same; reflexivity.
Qed.

Lemma countField_length doc totalLinks field :
  countField doc totalLinks field
  = totalLinks + length (fieldOccurrences pass1_urls doc field).
Proof.
  unfold countField, fieldOccurrences.
  destruct (negb (toBoolean (get doc field))); simpl;
    [lia | rewrite length_map; reflexivity].
Qed.

Lemma countDoc_length fields totalLinks doc :
  countDoc fields totalLinks doc
  = totalLinks + length (flat_map (fieldOccurrences pass1_urls doc) fields).
Proof.
  unfold countDoc; revert totalLinks.
  induction fields as [|f fields IH]; intros n; simpl; [lia|].
  rewrite IH, countField_length, length_app; lia.
Qed.

Lemma countDocs_length docs fields totalLinks :
  fold_left (countDoc fields) docs totalLinks
  = totalLinks + length (pass1_occurrences docs fields).
Proof.
  unfold pass1_occurrences, enumerate; revert totalLinks.
  induction docs as [|d docs IH]; intros n; simpl; [lia|].
  rewrite IH, countDoc_length, length_app; lia.
Qed.

Lemma countLinks_length docs fields :
  countLinks docs fields = length (pass1_occurrences docs fields).
Proof. unfold countLinks; rewrite countDocs_length; reflexivity. Qed.

(** *** Loops *)

Lemma for_of_app {A S} (xs ys : list A) (body : S -> A -> M S) st w :
  for_of (xs ++ ys) body st w
  = (st' <- for_of xs body st ;; for_of ys body st') w.
Proof.
  revert st w; induction xs as [|x xs IH]; intros st w; simpl.
  - reflexivity.
  - unfold bind at 1 2 3; destruct (body st x w) as [[st1|e|n] w1];
      [apply IH | reflexivity | reflexivity].
Qed.

Lemma for_of_map {A B S} (f : A -> B) xs (body : S -> B -> M S) st w :
  for_of (map f xs) body st w = for_of xs (fun st x => body st (f x)) st w.
Proof.
  revert st w; induction xs as [|x xs IH]; intros st w; simpl.
  - reflexivity.
  - unfold bind; destruct (body st (f x) w) as [[st1|e|n] w1];
      [apply IH | reflexivity | reflexivity].
Qed.

Lemma for_of_flat_map {A B S} (f : A -> list B) xs
      (outer : S -> A -> M S) (inner : S -> B -> M S) :
  (forall x st w, outer st x w = for_of (f x) inner st w) ->
  forall st w, for_of xs outer st w = for_of (flat_map f xs) inner st w.
Proof.
  intros H; induction xs as [|x xs IH]; intros st w; simpl.
  - reflexivity.
  - rewrite for_of_app; unfold bind; rewrite H.
    destruct (for_of (f x) inner st w) as [[st1|e|n] w1];
      [apply IH | reflexivity | reflexivity].
Qed.

Lemma checkField_flat doc totalLinks st field w :
  checkField doc totalLinks st field w
  = for_of (fieldOccurrences pass2_urls doc field)
           (checkOccurrence totalLinks) st w.
Proof.
  unfold checkField, fieldOccurrences.
  destruct (negb (toBoolean (get doc field))); [reflexivity|].
  rewrite for_of_map; reflexivity.
Qed.

(** The nested loops of the second pass run lines 244-251 on the
    enumerated occurrences, one after the other. *)
Lemma checkLinks_flat docs fields totalLinks w :
  checkLinks docs fields totalLinks w
  = for_of (pass2_occurrences docs fields) (checkOccurrence totalLinks)
           {| currentLink := 0; brokenLinksCount := 0 |} w.
Proof.
  unfold checkLinks, pass2_occurrences, enumerate.
  apply for_of_flat_map; intros doc st w'; unfold checkDoc.
  apply for_of_flat_map; intros field st' w''; apply checkField_flat.
Qed.

(* ================================================================== *)
(** ** What [checkUrl] does, path by path *)
(* ================================================================== *)

Lemma checkUrl_blank url w : blank url = true -> checkUrl url w = (Ret false, w).
Proof.
  intros H; unfold checkUrl, try_catch, checkUrl_try.
  fold (blank url); rewrite H; reflexivity.
Qed.

Lemma checkUrl_content url w r n body :
  blank url = false -> isYouTube url = true ->
  fetch (net w) url GET = (inl r, n) -> text r = inl body ->
  checkUrl url w
  = (Ret (existsb (fun phrase => includes phrase body) unavailablePhrases),
     fetched w n url GET).
Proof.
  intros Hb Hy Hf Ht; unfold checkUrl, try_catch, checkUrl_try.
  fold (blank url); rewrite Hb, Hy; unfold bind, await_fetch, await_text.
  rewrite Hf, Ht; reflexivity.
Qed.



Lemma checkUrl_try_throws url w e w1 :
  checkUrl_try url w = (Throw e, w1) <-> raises url w e w1.
Proof.
  unfold checkUrl_try; fold (blank url); split.
  - destruct (blank url) eqn:Hb; [discriminate|].
    destruct (isYouTube url) eqn:Hy; unfold bind, await_fetch, await_text.
    + destruct (fetch (net w) url GET) as [[r|e'] n] eqn:Hf.
      * destruct (text r) as [body|e'] eqn:Ht; [discriminate|].
        intros [= <- <-]; eapply raises_content_read; eassumption.
      * intros [= <- <-]; apply raises_content_fetch; assumption.
    + destruct (fetch (net w) url HEAD) as [[r|e'] n] eqn:Hf.
      * destruct (status r =? 404)%Z eqn:Hs; [|discriminate].
        apply Z.eqb_eq in Hs; simpl.
        destruct (fetch n url GET) as [[r2|e'] n2] eqn:Hg; [discriminate|].
        intros [= <- <-]; eapply raises_escalation; eassumption.
      * intros [= <- <-]; apply raises_probe; assumption.
  - intros [e' n Hb Hy Hf | r e' n Hb Hy Hf Ht | e' n Hb Hy Hf
            | r e' n1 n2 Hb Hy Hf Hs Hg];
      rewrite Hb, Hy; unfold bind, await_fetch, await_text; rewrite Hf.
    + reflexivity.
    + rewrite Ht; reflexivity.
    + reflexivity.
    + rewrite Hs; simpl; rewrite Hg; reflexivity.
Qed.

Lemma checkUrl_try_no_exit url w n w1 : checkUrl_try url w <> (Exit n, w1).
Proof.
  unfold checkUrl_try, bind, await_fetch, await_text, ret.
  destruct (_ || _); [discriminate|].
  destruct (isYouTube url).
  - destruct (fetch (net w) url GET) as [[r|e'] n']; [|discriminate].
    destruct (text r); discriminate.
  - destruct (fetch (net w) url HEAD) as [[r|e'] n']; [|discriminate].
    destruct (status r =? 404)%Z; [|discriminate].
    simpl; destruct (fetch n' url GET) as [[r2|e'] n2]; discriminate.
Qed.

Lemma checkUrl_try_console url w r w1 :
  checkUrl_try url w = (r, w1) -> console w1 = console w.
Proof.
  unfold checkUrl_try, bind, await_fetch, await_text, ret.
  destruct (_ || _); [intros [= <- <-]; reflexivity|].
  destruct (isYouTube url).
  - destruct (fetch (net w) url GET) as [[r'|e'] n'];
      [destruct (text r')|]; intros [= <- <-]; reflexivity.
  - destruct (fetch (net w) url HEAD) as [[r'|e'] n'];
      [|intros [= <- <-]; reflexivity].
    destruct (status r' =? 404)%Z; [|intros [= <- <-]; reflexivity].
    simpl; destruct (fetch n' url GET) as [[r2|e'] n2];
      intros [= <- <-]; reflexivity.
Qed.

Lemma checkUrl_raises url w e w1 :
  raises url w e w1 ->
  checkUrl url w = (Ret true, logged w1 (ErrorChecking url (message e))).
Proof.
  intros H; apply checkUrl_try_throws in H.
  unfold checkUrl, try_catch; rewrite H; reflexivity.
Qed.

(** [checkUrl] always returns; what it adds to the console is at most
    one error line for this URL. *)
Lemma checkUrl_returns url w :
  exists b w' errs,
    checkUrl url w = (Ret b, w') /\
    console w' = console w ++ errs /\
    (errs = [] \/ exists reason, errs = [ErrorChecking url reason]).
Proof.
  unfold checkUrl, try_catch.
  destruct (checkUrl_try url w) as [[b|e|n] w1] eqn:E.
  - exists b, w1, []; rewrite app_nil_r.
    apply checkUrl_try_console in E; tauto.
  - exists true, (logged w1 (ErrorChecking url (message e))),
      [ErrorChecking url (message e)].
    apply checkUrl_try_console in E; simpl; rewrite E.
    repeat split; right; eexists; reflexivity.
  - exfalso; exact (checkUrl_try_no_exit _ _ _ _ E).
Qed.

(* ================================================================== *)
(** ** What the second pass does, occurrence by occurrence *)
(* ================================================================== *)

Lemma linkIndices_app a b : linkIndices (a ++ b) = linkIndices a ++ linkIndices b.
Proof. apply flat_map_app. Qed.

Lemma filter_isLogBroken_errs url errs :
  errs = [] \/ (exists reason, errs = [ErrorChecking url reason]) ->
  linkIndices errs = [] /\ filter isLogBroken errs = [].
Proof. intros [-> | [reason ->]]; split; reflexivity. Qed.

(** One occurrence, given what [checkUrl] returned for its URL: on a
    broken link [doc._id] is converted for the broken-link line, and an
    error thrown by that conversion leaves the loop with nothing
    written and the counters as they were. *)
Lemma checkLink_run doc field totalLinks st url w b w1 :
  checkUrl url w = (Ret b, w1) ->
  checkLink doc field totalLinks st url w
  = if b then
      match ToString_throws (get doc (lit "_id")) with
      | Some e => (Throw e, w1)
      | None =>
          (Ret {| currentLink := currentLink st + 1;
                  brokenLinksCount := brokenLinksCount st + 1 |},
           logged w1 (LogBroken field (get doc (lit "_id")) url
                                (currentLink st + 1) totalLinks))
      end
    else
      (Ret {| currentLink := currentLink st + 1;
              brokenLinksCount := brokenLinksCount st |},
       logged w1 (WriteProgress (currentLink st + 1) totalLinks)).
Proof.
  intros E; unfold checkLink, bind; rewrite E; destruct b; [|reflexivity].
  unfold interpolate; destruct (ToString_throws _); reflexivity.
Qed.

(** The whole loop over a list of occurrences.  It never exits the
    process.  It returns after walking over all of them, or it throws at
    the first broken link whose document has an [_id] that does not
    convert to a string, the occurrence at position [k].  Either way the
    indexed lines written carry the indices of the [k] occurrences before
    it, in order and without a gap. *)
Lemma checkOccurrences_outcome totalLinks occs st w :
  exists r w' out k,
    for_of occs (checkOccurrence totalLinks) st w = (r, w') /\
    console w' = console w ++ out /\
    k <= length occs /\
    linkIndices out = seq (currentLink st + 1) k /\
    match r with
    | Ret st' =>
        k = length occs /\
        currentLink st' = currentLink st + length occs /\
        brokenLinksCount st'
        = brokenLinksCount st + length (filter isLogBroken out)
    | Throw e =>
        exists doc field url,
          nth_error occs k = Some (doc, field, url) /\
          ToString_throws (get doc (lit "_id")) = Some e
    | Exit _ => False
    end.
Proof.
  revert st w; induction occs as [|[[doc field] url] occs IH]; intros st w.
  - exists (Ret st), w, [], 0; simpl; rewrite app_nil_r; repeat split; lia.
  - destruct (checkUrl_returns url w) as [b [w1 [errs [E [Hc He]]]]].
    apply (filter_isLogBroken_errs url) in He as [Hi Hf].
    pose proof (checkLink_run doc field totalLinks st url w b w1 E) as Hrun.
    simpl; unfold bind; unfold checkOccurrence at 1; rewrite Hrun.
    assert (Hgo : forall st1 line,
               currentLink st1 = currentLink st + 1 ->
               linkIndices [line] = [currentLink st + 1] ->
               brokenLinksCount st1
               = brokenLinksCount st + length (filter isLogBroken [line]) ->
               exists r w' out k,
                 for_of occs (checkOccurrence totalLinks) st1 (logged w1 line)
                 = (r, w') /\
                 console w' = console w ++ out /\
                 k <= S (length occs) /\
                 linkIndices out = seq (currentLink st + 1) k /\
                 match r with
                 | Ret st' =>
                     k = S (length occs) /\
                     currentLink st' = currentLink st + S (length occs) /\
                     brokenLinksCount st'
                     = brokenLinksCount st + length (filter isLogBroken out)
                 | Throw e =>
                     exists d f u,
                       nth_error ((doc, field, url) :: occs) k
                       = Some (d, f, u) /\
                       ToString_throws (get d (lit "_id")) = Some e
                 | Exit _ => False
                 end).
    { intros st1 line L1 I1 B1.
      destruct (IH st1 (logged w1 line)) as [r [w2 [out2 [k [E2 [C2 [K2 [I2 R2]]]]]]]].
      exists r, w2, (errs ++ [line] ++ out2), (S k).
      split; [exact E2|].
      split; [rewrite C2; simpl; rewrite Hc, <- !app_assoc; reflexivity|].
      split; [lia|].
      split.
      { rewrite !linkIndices_app, Hi, I1, I2, L1; simpl.
        replace (currentLink st + 1 + 1) with (S (currentLink st + 1)) by lia.
        reflexivity. }
      destruct r as [st'|e|n]; [|exact R2|exact R2].
      destruct R2 as [-> [L2 B2]]; rewrite !filter_app, !length_app, Hf.
      simpl in *; repeat split; lia. }
    destruct b.
    + destruct (ToString_throws (get doc (lit "_id"))) as [e|] eqn:Et.
      * exists (Throw e), w1, errs, 0; rewrite Hc, Hi; simpl.
        repeat split; try lia.
        exists doc, field, url; tauto.
      * apply Hgo; simpl; lia || reflexivity.
    + apply Hgo; simpl; lia || reflexivity.
Qed.

Lemma pass2_length docs candidateFields :
  length (pass2_occurrences docs candidateFields)
  = countLinks docs candidateFields.
Proof.
  rewrite countLinks_length; f_equal; symmetry; apply enumerate_same.
Qed.

(** The documents of the enumerated occurrences are documents of the
    collection. *)
Lemma pass2_occurrence_doc docs candidateFields k doc field url :
  nth_error (pass2_occurrences docs candidateFields) k
  = Some (doc, field, url) ->
  In doc docs.
Proof.
  intros H; apply nth_error_In in H.
  unfold pass2_occurrences, enumerate in H.
  apply in_flat_map in H as [d [Hd H]].
  apply in_flat_map in H as [f [_ H]].
  unfold fieldOccurrences in H.
  destruct (negb (toBoolean (get d f))); [destruct H|].
  apply in_map_iff in H as [u [[= <- <- <-] _]]; exact Hd.
Qed.

(** C1. The occurrences the counting pass walks over and those the
    checking pass walks over are the same list in the same order; the
    total of the first pass is its length; the checking pass runs lines
    244-251 on exactly these occurrences in this order.  It walks over
    them from the first on, writing the indices 1, 2, ... without a gap:
    when it returns, it has walked over all of them, its running index
    is the total and the indices written are 1, ..., total; it stops
    earlier only by the error thrown when the [_id] of a document with a
    broken link does not convert to a string, and it returns whenever
    every [_id] of the collection converts. *)
Theorem two_passes_same_enumeration docs candidateFields w :
  let totalLinks := countLinks docs candidateFields in
  pass1_occurrences docs candidateFields
  = pass2_occurrences docs candidateFields
  /\ totalLinks = length (pass1_occurrences docs candidateFields)
  /\ checkLinks docs candidateFields totalLinks w
     = for_of (pass2_occurrences docs candidateFields)
              (checkOccurrence totalLinks)
              {| currentLink := 0; brokenLinksCount := 0 |} w
  /\ (exists r w' out k,
        checkLinks docs candidateFields totalLinks w = (r, w') /\
        console w' = console w ++ out /\
        k <= totalLinks /\
        linkIndices out = seq 1 k /\
        match r with
        | Ret st => k = totalLinks /\ currentLink st = totalLinks
        | Throw e =>
            exists doc field url,
              nth_error (pass2_occurrences docs candidateFields) k
              = Some (doc, field, url) /\
              ToString_throws (get doc (lit "_id")) = Some e
        | Exit _ => False
        end)
  /\ ((forall doc, In doc docs ->
                   ToString_throws (get doc (lit "_id")) = None) ->
      exists st w' out,
        checkLinks docs candidateFields totalLinks w = (Ret st, w') /\
        console w' = console w ++ out /\
        currentLink st = totalLinks /\
        linkIndices out = seq 1 totalLinks).
Proof.
  intros totalLinks.
  split; [apply enumerate_same|].
  split; [apply countLinks_length|].
  split; [apply checkLinks_flat|].
  destruct (checkOccurrences_outcome totalLinks
              (pass2_occurrences docs candidateFields)
              {| currentLink := 0; brokenLinksCount := 0 |} w)
    as [r [w' [out [k [E [C [K [I R]]]]]]]].
  pose proof (pass2_length docs candidateFields) as Ht.
  fold totalLinks in Ht; rewrite Ht in K; simpl in I.
  rewrite <- checkLinks_flat in E; split.
  - exists r, w', out, k; repeat split; try assumption.
    destruct r as [st|e|n]; [|exact R|exact R].
    destruct R as [-> [L _]]; simpl in L; split; [exact Ht | lia].
  - intros Hid; destruct r as [st|e|n].
    + destruct R as [-> [L _]]; simpl in L; rewrite Ht in I.
      exists st, w', out; repeat split; try assumption; lia.
    + destruct R as [doc [field [url [Hn He]]]].
      apply pass2_occurrence_doc in Hn; rewrite (Hid doc Hn) in He.
      discriminate.
    + destruct R.
Qed.

(** C2. For a URL with a host part that contains [youtube.com] or
    [youtu.be], when the full fetch answers with a body, [checkUrl]
    issues that one GET and nothing else and returns broken exactly when
    the body contains one of the four phrases; the status of the
    answer is not looked at. *)
Theorem checkUrl_youtube_body url pre host post w r n body :
  url = pre ++ host ++ post ->
  isYouTube host = true ->
  fetch (net w) url GET = (inl r, n) ->
  text r = inl body ->
  exists broken,
    checkUrl url w = (Ret broken, fetched w n url GET) /\
    (broken = true <->
     includes (lit "This video is no longer available") body = true \/
     includes (lit "Video unavailable") body = true \/
     includes (lit "This video is private") body = true \/
     includes (lit "has been removed") body = true).
Proof.
  intros -> Hh Hf Ht.
  assert (Hy : isYouTube (pre ++ host ++ post) = true).
  { unfold isYouTube in *; apply orb_true_iff in Hh; apply orb_true_iff.
    destruct Hh as [H|H]; [left | right]; apply includes_app; exact H. }
  eexists; split.
  - eapply checkUrl_content; [apply isYouTube_not_blank| | |]; eassumption.
  - cbv [unavailablePhrases existsb]; rewrite !orb_true_iff.
    intuition discriminate.
Qed.



(** When a fetch made while checking a URL fails, [checkUrl] does not
    throw: it returns broken and writes the failure's message, with the
    URL, on the error console.  The loop over the URLs of a field then
    converts [doc._id] for the broken-link line: when that converts, the
    line is written and the loop goes on with the next URL; when it
    throws, the loop is left with that error and the remaining URLs are
    not checked. *)
Lemma transport_failure_in_loop url w e w1 :
  raises url w e w1 ->
  checkUrl url w = (Ret true, logged w1 (ErrorChecking url (message e)))
  /\
  (forall doc field totalLinks st urls,
      for_of (url :: urls) (checkLink doc field totalLinks) st w
      = match ToString_throws (get doc (lit "_id")) with
        | Some e' => (Throw e', logged w1 (ErrorChecking url (message e)))
        | None =>
            for_of urls (checkLink doc field totalLinks)
              {| currentLink := currentLink st + 1;
                 brokenLinksCount := brokenLinksCount st + 1 |}
              (logged (logged w1 (ErrorChecking url (message e)))
                      (LogBroken field (get doc (lit "_id")) url
                                 (currentLink st + 1) totalLinks))
        end).
Proof.
  intros H; pose proof (checkUrl_raises _ _ _ _ H) as E.
  split; [exact E|].
  intros doc field totalLinks st urls; simpl; unfold bind at 1.
  rewrite (checkLink_run doc field totalLinks st url w _ _ E).
  destruct (ToString_throws (get doc (lit "_id"))); reflexivity.
Qed.

(** C9. A URL that is empty or made of whitespace only is not broken, and
    checking it changes nothing: no fetch is issued and nothing is
    written. *)
Theorem checkUrl_blank_not_broken url w :
  forallb isWhiteSpace url = true ->
  checkUrl url w = (Ret false, w).
Proof. intros H; apply checkUrl_blank, blank_iff, H. Qed.

(* ================================================================== *)
(** ** Harvesting one value *)
(* ================================================================== *)

Lemma pass1_urls_array items :
  pass1_urls (VArray items)
  = flat_map (fun item => match item with
                          | VString s => pass1_urls (VString s)
                          | _ => []
                          end) items.
Proof.
  unfold pass1_urls at 1; cbv zeta.
  match goal with
  | |- fold_left ?F items [] = flat_map ?G items =>
      assert (H : forall acc, fold_left F items acc = acc ++ flat_map G items)
  end; [|apply H].
  induction items as [|item items IH]; intros acc; simpl.
  - rewrite app_nil_r; reflexivity.
  - rewrite IH; destruct item; simpl;
      rewrite ?app_nil_r, ?app_assoc; reflexivity.
Qed.

Lemma pass1_urls_element items s url :
  In (VString s) items -> In url (pass1_urls (VString s)) ->
  In url (pass1_urls (VArray items)).
Proof.
  intros Hi Hu; rewrite pass1_urls_array; apply in_flat_map.
  exists (VString s); split; assumption.
Qed.

Lemma pass1_urls_scheme s :
  startsWithScheme s = true ->
  pass1_urls (VString s) <> [] /\
  (extractUrlsFromText s = [] -> pass1_urls (VString s) = [s]).
Proof.
  intros H; unfold pass1_urls.
  destruct (extractUrlsFromText s) as [|u urls]; simpl; rewrite ?H; split;
    try discriminate; reflexivity.
Qed.

Lemma startsWithScheme_truthy s :
  startsWithScheme s = true -> toBoolean (VString s) = true.
Proof. destruct s; [discriminate | reflexivity]. Qed.

Lemma enumerate_in urlsOf docs fields doc field url :
  In doc docs -> In field fields ->
  toBoolean (get doc field) = true ->
  In url (urlsOf (get doc field)) ->
  In (doc, field, url) (enumerate urlsOf docs fields).
Proof.
  intros Hd Hf Ht Hu; unfold enumerate.
  apply in_flat_map; exists doc; split; [exact Hd|].
  apply in_flat_map; exists field; split; [exact Hf|].
  unfold fieldOccurrences; rewrite Ht; simpl.
  apply in_map_iff; exists url; tauto.
Qed.

(** C6. A string field value, or a string element of an array field
    value, that begins with [http://] or [https://] always yields at
    least one URL; when the pattern finds none in it, the one URL is the
    whole text.  Each URL it yields is an occurrence of both passes, for
    every document of the collection and every candidate field that hold
    it, so the total is at least one. *)
Theorem scheme_prefixed_text_harvested docs candidateFields doc field s :
  In doc docs -> In field candidateFields ->
  startsWithScheme s = true ->
  get doc field = VString s \/
  (exists items, get doc field = VArray items /\ In (VString s) items) ->
  pass1_urls (VString s) <> [] /\
  (extractUrlsFromText s = [] -> pass1_urls (VString s) = [s]) /\
  (forall url, In url (pass1_urls (VString s)) ->
               In (doc, field, url) (pass1_occurrences docs candidateFields) /\
               In (doc, field, url) (pass2_occurrences docs candidateFields)) /\
  1 <= countLinks docs candidateFields.
Proof.
  intros Hd Hf Hs Hv.
  destruct (pass1_urls_scheme s Hs) as [Hne Hfb].
  assert (Hin : forall url, In url (pass1_urls (VString s)) ->
                  In (doc, field, url) (pass1_occurrences docs candidateFields)).
  { intros url Hu; apply enumerate_in; try assumption.
    - destruct Hv as [-> | [items [-> _]]];
        [apply startsWithScheme_truthy, Hs | reflexivity].
    - destruct Hv as [-> | [items [-> Hi]]];
        [exact Hu | eapply pass1_urls_element; eassumption]. }
  repeat split; try assumption.
  - apply Hin; assumption.
  - rewrite <- enumerate_same; apply Hin; assumption.
  - rewrite countLinks_length.
    destruct (pass1_urls (VString s)) as [|u us] eqn:E; [congruence|].
    specialize (Hin u (or_introl eq_refl)).
    destruct (pass1_occurrences docs candidateFields); [destruct Hin|].
    simpl; lia.
Qed.

(** The falsy values. *)
Lemma toBoolean_false_iff v :
  toBoolean v = false <->
  In v [VUndefined; VNull; VBool false; VNumber 0; VNaN; VString []].
Proof.
  simpl; split.
  - destruct v as [| |[]|n| |[|c s]| |]; simpl; try discriminate; try tauto.
    destruct (Z.eqb_spec n 0); [subst; tauto | discriminate].
  - intros [<-|[<-|[<-|[<-|[<-|[<-|[]]]]]]]; reflexivity.
Qed.

(** C10. A candidate field whose value in a document is falsy
    ([undefined], [null], [false], [0], [NaN] or the empty string: see
    [toBoolean_false_iff]), or which the document does not have, adds
    nothing in either pass: the counter of the first pass is left as it
    was, and the second pass leaves its counters and the world as they
    were. *)
Theorem falsy_field_contributes_nothing doc field :
  toBoolean (get doc field) = false \/ getOwn doc field = None ->
  (forall totalLinks, countField doc totalLinks field = totalLinks) /\
  (forall totalLinks st w,
      checkField doc totalLinks st field w = (Ret st, w)).
Proof.
  intros [H | H]; unfold countField, checkField.
  - rewrite H; split; reflexivity.
  - unfold get; rewrite H.
    destruct (existsb (jsstring_eqb field) Object_prototype_keys); simpl;
      split; intros; try reflexivity; lia.
Qed.

(** C7 (amended). When sniffing finds no candidate field, [main] writes
    the line saying so and the process exits with code 0 at once: no
    total and no summary line is written, no fetch is issued, and neither
    pass is entered. *)
Theorem main_no_candidate_fields sampleDocs docs w :
  sniff sampleDocs = [] ->
  main sampleDocs docs w
  = (Exit 0,
     logged
       (logged w (ConsoleLog (10%N :: lit "Inspecting sample documents to detect fields containing links...")))
       (ConsoleLog (lit "No fields containing links were detected in the sample documents."))).
Proof.
  intros H; unfold main, try_finally, try_catch, bind, emit.
  rewrite H; reflexivity.
Qed.

(** The set is empty when the sample is empty or no field of a sampled
    document qualifies. *)
Lemma sniff_empty sampleDocs :
  (forall doc key, In doc sampleDocs -> In key (Object_keys doc) ->
                   ~ HasLinkValue (get doc key)) ->
  sniff sampleDocs = [].
Proof.
  intros H; destruct (sniff sampleDocs) as [|k ks] eqn:E; [reflexivity|].
  assert (Hk : In k (sniff sampleDocs)) by (rewrite E; left; reflexivity).
  unfold sniff in Hk; apply sniffFrom_iff in Hk as [[] | [doc [Hd [Hk Hv]]]].
  destruct (H doc k Hd Hk Hv).
Qed.

(** C8 (amended). A text that is [http://] or [https://] followed by one
    or more characters, none of them whitespace or a quote, is extracted
    as the single URL equal to the whole text. *)
Theorem extract_exactly_one_url text scheme rest :
  scheme = lit "http://" \/ scheme = lit "https://" ->
  rest <> [] ->
  forallb isUrlChar rest = true ->
  text = scheme ++ rest ->
  extractUrlsFromText text = [text].
Proof.
  intros Hs Hne Hr ->; destruct rest as [|c run]; [congruence|].
  apply extract_whole; assumption.
Qed.

(* ================================================================== *)
(** ** More about the pattern *)
(* ================================================================== *)

Lemma spanUrlChars_spec s :
  forallb isUrlChar (fst (spanUrlChars s)) = true /\
  StopsRun (snd (spanUrlChars s)).
Proof.
  induction s as [|c s [IH1 IH2]]; simpl.
  - split; [reflexivity | left; reflexivity].
  - destruct (isUrlChar c) eqn:E.
    + destruct (spanUrlChars s) as [run rest]; simpl in *.
      rewrite E, IH1; split; [reflexivity | exact IH2].
    + split; [reflexivity | right; exists c, s; tauto].
Qed.

Lemma matchAfterScheme_shape scheme s m rest :
  matchAfterScheme scheme s = Some (m, rest) ->
  exists c run,
    m = scheme ++ lit "://" ++ c :: run /\
    forallb isUrlChar (c :: run) = true /\ StopsRun rest.
Proof.
  unfold matchAfterScheme.
  destruct (stripPrefix (lit "://") s) as [s1|]; [|discriminate].
  destruct (spanUrlChars_spec s1) as [H1 H2].
  destruct (spanUrlChars s1) as [[|c run] rest']; [discriminate|].
  intros [= <- <-]; exists c, run; simpl in *; tauto.
Qed.

Lemma matchUrlAt_shape s m rest :
  matchUrlAt s = Some (m, rest) ->
  UrlShaped m /\ s = m ++ rest /\ StopsRun rest.
Proof.
  intros H; destruct (matchUrlAt_app _ _ _ H) as [Hs _].
  split; [|split; [exact Hs|]]; revert H; unfold matchUrlAt;
    destruct (stripPrefix (lit "http") s) as [s1|]; try discriminate;
    destruct (stripPrefix (lit "s") s1) as [s2|];
    try destruct (matchAfterScheme (lit "https") s2) as [[m' rest']|] eqn:E;
    intros H; try (injection H as -> ->);
    repeat match goal with
      | H : matchAfterScheme _ _ = Some _ |- _ =>
          apply matchAfterScheme_shape in H as [c [run [-> [Hr Hstop]]]]
      end;
    try exact Hstop.
  - exists (lit "https://"), c, run; tauto.
  - exists (lit "http://"), c, run; tauto.
  - exists (lit "http://"), c, run; tauto.
Qed.

Lemma matchUrlAt_start scheme c b :
  scheme = lit "http://" \/ scheme = lit "https://" ->
  isUrlChar c = true ->
  matchUrlAt (scheme ++ c :: b) <> None.
Proof.
  intros [-> | ->] Hc; unfold matchUrlAt.
  - change (lit "http://" ++ c :: b) with (lit "http" ++ lit "://" ++ c :: b).
    rewrite stripPrefix_of_app.
    change (stripPrefix (lit "s") (lit "://" ++ c :: b)) with (@None jsstring).
    unfold matchAfterScheme; rewrite stripPrefix_of_app; simpl; rewrite Hc.
    destruct (spanUrlChars b); discriminate.
  - change (lit "https://" ++ c :: b)
      with (lit "http" ++ lit "s" ++ lit "://" ++ c :: b).
    rewrite stripPrefix_of_app, stripPrefix_of_app.
    unfold matchAfterScheme at 1; rewrite stripPrefix_of_app; simpl; rewrite Hc.
    destruct (spanUrlChars b); discriminate.
Qed.

(** Induction along the scan of [matchAll]. *)
Lemma matchAll_scan (P : jsstring -> list jsstring -> Prop) :
  P [] [] ->
  (forall c s' m rest,
      matchUrlAt (c :: s') = Some (m, rest) ->
      P rest (matchAll rest) -> P (c :: s') (m :: matchAll rest)) ->
  (forall c s',
      matchUrlAt (c :: s') = None ->
      P s' (matchAll s') -> P (c :: s') (matchAll s')) ->
  forall s, P s (matchAll s).
Proof.
  intros Hnil Hmatch Hskip s.
  remember (length s) as n eqn:Hn; revert s Hn.
  induction n as [n IH] using lt_wf_ind; intros [|c s'] Hn.
  - simp matchAll; exact Hnil.
  - destruct (matchUrlAt (c :: s')) as [[m rest]|] eqn:E.
    + rewrite (matchAll_match _ _ _ _ E); apply Hmatch; [exact E|].
      apply (IH (length rest)); [|reflexivity].
      apply matchUrlAt_shorter in E; lia.
    + rewrite (matchAll_skip _ _ E); apply Hskip; [exact E|].
      apply (IH (length s')); [subst n; simpl; lia | reflexivity].
Qed.

Lemma extract_is_matchAll text : extractUrlsFromText text = matchAll text.
Proof.
  unfold extractUrlsFromText, String_match.
  destruct (matchAll text); reflexivity.
Qed.

Lemma matchAll_shaped s : Forall UrlShaped (matchAll s).
Proof.
  apply (matchAll_scan (fun _ l => Forall UrlShaped l)).
  - constructor.
  - intros c s' m rest E IH; constructor; [|exact IH].
    apply matchUrlAt_shape in E; tauto.
  - intros c s' _ IH; exact IH.
Qed.

Lemma matchUrlAt_none_prefix x y :
  matchUrlAt (x ++ y) = None -> matchUrlAt x = None.
Proof.
  intros H; destruct (matchUrlAt x) as [[m rest]|] eqn:E; [|reflexivity].
  apply matchUrlAt_shape in E as [[scheme [c [run [Hs [-> Hr]]]]] [-> _]].
  exfalso; revert H; rewrite <- !app_assoc; simpl.
  apply matchUrlAt_start; [exact Hs|].
  simpl in Hr; apply andb_true_iff in Hr; tauto.
Qed.

Lemma matchAll_nil_cons c s :
  matchAll (c :: s) = [] <-> matchUrlAt (c :: s) = None /\ matchAll s = [].
Proof.
  destruct (matchUrlAt (c :: s)) as [[m rest]|] eqn:E.
  - rewrite (matchAll_match _ _ _ _ E); split;
      [discriminate | intros [H _]; discriminate].
  - rewrite (matchAll_skip _ _ E); tauto.
Qed.

Lemma matchAll_nil_prefix x y : matchAll (x ++ y) = [] -> matchAll x = [].
Proof.
  induction x as [|c x IH]; simpl; [intros _; simp matchAll; reflexivity|].
  rewrite !matchAll_nil_cons; intros [H1 H2]; split; [|apply IH, H2].
  apply (matchUrlAt_none_prefix (c :: x) y), H1.
Qed.

Lemma matchAll_interleave s :
  exists gaps last,
    length gaps = length (matchAll s) /\
    s = interleave gaps (matchAll s) last /\
    Forall (fun g => matchAll g = []) gaps /\ matchAll last = [].
Proof.
  apply (matchAll_scan
           (fun s l => exists gaps last,
                length gaps = length l /\ s = interleave gaps l last /\
                Forall (fun g => matchAll g = []) gaps /\ matchAll last = [])).
  - exists [], []; repeat split; simp matchAll; constructor.
  - intros c s' m rest E [gaps [last [Hl [Hs [Hg Hlast]]]]].
    exists ([] :: gaps), last; simpl; repeat split.
    + rewrite Hl; reflexivity.
    + apply matchUrlAt_app in E as [-> _]; rewrite <- Hs; reflexivity.
    + constructor; [simp matchAll; reflexivity | exact Hg].
    + exact Hlast.
  - intros c s' E [gaps [last [Hl [Hs [Hg Hlast]]]]].
    destruct (matchAll s') as [|u us] eqn:Em.
    + exists [], (c :: s'); repeat split; [constructor|].
      rewrite (matchAll_skip _ _ E); exact Em.
    + destruct gaps as [|g gaps]; [discriminate|].
      exists ((c :: g) :: gaps), last; simpl in *; repeat split.
      * exact Hl.
      * rewrite Hs; reflexivity.
      * inversion Hg as [|? ? Hg1 Hg2]; subst; constructor; [|exact Hg2].
        apply matchAll_nil_cons; split; [|exact Hg1].
        eapply matchUrlAt_none_prefix; rewrite <- app_comm_cons; exact E.
      * exact Hlast.
Qed.

Lemma matchAll_found s url :
  In url (matchAll s) ->
  UrlShaped url /\ exists a b, s = a ++ url ++ b /\ StopsRun b.
Proof.
  revert url; apply (matchAll_scan
    (fun s l => forall url, In url l ->
        UrlShaped url /\ exists a b, s = a ++ url ++ b /\ StopsRun b)).
  - intros url [].
  - intros c s' m rest E IH url [<- | H].
    + apply matchUrlAt_shape in E as [H1 [H2 H3]]; split; [exact H1|].
      exists [], rest; tauto.
    + destruct (IH url H) as [H1 [a [b [H2 H3]]]]; split; [exact H1|].
      apply matchUrlAt_app in E as [-> _].
      exists (m ++ a), b; rewrite H2, <- app_assoc; tauto.
  - intros c s' _ IH url H.
    destruct (IH url H) as [H1 [a [b [H2 H3]]]]; split; [exact H1|].
    exists (c :: a), b; rewrite H2; tauto.
Qed.

Lemma matchAll_nil_iff s :
  matchAll s = [] <-> forall a t, s = a ++ t -> matchUrlAt t = None.
Proof.
  induction s as [|c s IH].
  - split; [|intros _; simp matchAll; reflexivity].
    intros _ a t H; symmetry in H; apply app_eq_nil in H as [_ ->].
    reflexivity.
  - rewrite matchAll_nil_cons, IH; split.
    + intros [H1 H2] [|x a] t H; simpl in H.
      * subst t; exact H1.
      * injection H as -> ->; eapply H2; reflexivity.
    + intros H; split; [apply (H [] (c :: s)); reflexivity|].
      intros a t ->; apply (H (c :: a) t); reflexivity.
Qed.

(** X1. Every URL that [extractUrlsFromText] returns is a piece of the
    text, made of [http://] or [https://] and one or more characters that
    are neither whitespace nor quotes, and it runs as far as such
    characters go: what follows it in the text is the end or a character
    outside the class. *)
Theorem extract_urls_shaped text url :
  In url (extractUrlsFromText text) ->
  UrlShaped url /\ exists a b, text = a ++ url ++ b /\ StopsRun b.
Proof. rewrite extract_is_matchAll; apply matchAll_found. Qed.

(** X2. The URLs come out in the order they stand in the text and do not
    overlap: the text is a gap, the first URL, a gap, the second URL and
    so on, and nothing can be extracted from any of the gaps or from
    what follows the last URL. *)
Theorem extract_urls_in_order text :
  exists gaps last,
    length gaps = length (extractUrlsFromText text) /\
    text = interleave gaps (extractUrlsFromText text) last /\
    Forall (fun g => extractUrlsFromText g = []) gaps /\
    extractUrlsFromText last = [].
Proof.
  destruct (matchAll_interleave text) as [gaps [last [H1 [H2 [H3 H4]]]]].
  exists gaps, last; rewrite !extract_is_matchAll; repeat split; try assumption.
  eapply Forall_impl; [|exact H3].
  intros g Hg; rewrite extract_is_matchAll; exact Hg.
Qed.

(** X3. Nothing is extracted exactly when nowhere in the text a scheme
    is followed by a character of the class: no URL the pattern could
    match is missed. *)
Theorem extract_nothing_iff text :
  extractUrlsFromText text = [] <-> ~ HasUrlStart text.
Proof.
  rewrite extract_is_matchAll, matchAll_nil_iff; unfold HasUrlStart; split.
  - intros H [a [scheme [c [b [Hs [Ht Hc]]]]]].
    exact (matchUrlAt_start scheme c b Hs Hc (H a _ Ht)).
  - intros H a t Ht.
    destruct (matchUrlAt t) as [[m rest]|] eqn:E; [|reflexivity].
    apply matchUrlAt_shape in E as [[scheme [c [run [Hs [-> Hr]]]]] [-> _]].
    exfalso; apply H; exists a, scheme, c, (run ++ rest); split; [exact Hs|].
    rewrite Ht, <- !app_assoc; simpl in *.
    apply andb_true_iff in Hr; tauto.
Qed.

(* ================================================================== *)
(** ** More about sniffing and harvesting *)
(* ================================================================== *)

Lemma Set_add_NoDup key s : NoDup s -> NoDup (Set_add key s).
Proof.
  intros H; unfold Set_add; destruct (Set_has key s) eqn:E; [exact H|].
  apply NoDup_app; [exact H | repeat constructor; intros [] |].
  intros x Hx [<- | []].
  apply Set_has_iff in Hx; congruence.
Qed.

Lemma sniffKey_NoDup doc s key : NoDup s -> NoDup (sniffKey doc s key).
Proof.
  intros H; unfold sniffKey; destruct (get doc key); try exact H;
    match goal with |- NoDup (if ?b then _ else _) => destruct b end;
    try exact H; apply Set_add_NoDup, H.
Qed.

Lemma sniffFrom_NoDup sampleDocs s : NoDup s -> NoDup (sniffFrom s sampleDocs).
Proof.
  unfold sniffFrom; revert s.
  induction sampleDocs as [|doc docs IH]; intros s H; simpl; [exact H|].
  apply IH; unfold sniffDoc; generalize (Object_keys doc); intros keys.
  revert s H; induction keys as [|k keys IHk]; intros s H; simpl;
    [exact H | apply IHk, sniffKey_NoDup, H].
Qed.

(** X4. The candidate set lists each field name once. *)
Theorem sniff_lists_each_field_once sampleDocs : NoDup (sniff sampleDocs).
Proof. apply sniffFrom_NoDup; constructor. Qed.

Lemma startsWith_includes p s : startsWith p s = true -> includes p s = true.
Proof. destruct s; simpl; intros ->; reflexivity. Qed.

Lemma startsWithScheme_includesLink s :
  startsWithScheme s = true -> includesLink s = true.
Proof.
  unfold startsWithScheme, includesLink; rewrite !orb_true_iff.
  intros [H | H]; [left | right]; apply startsWith_includes, H.
Qed.

Lemma UrlShaped_includesLink a u b :
  UrlShaped u -> includesLink (a ++ u ++ b) = true.
Proof.
  intros [scheme [c [run [Hs [-> _]]]]]; apply includesLink_iff.
  exists a, ((c :: run) ++ b); rewrite <- !app_assoc.
  destruct Hs as [-> | ->]; [left | right]; reflexivity.
Qed.

Lemma UrlShaped_startsWithScheme u : UrlShaped u -> startsWithScheme u = true.
Proof.
  intros [scheme [c [run [[-> | ->] [-> _]]]]]; unfold startsWithScheme;
    apply orb_true_iff; [left | right]; apply startsWith_iff; eexists;
    reflexivity.
Qed.

(** The URLs of one text: found by the pattern, or the text itself. *)
Lemma pass1_urls_string_in s url :
  In url (pass1_urls (VString s)) ->
  In url (extractUrlsFromText s) \/ (url = s /\ startsWithScheme s = true).
Proof.
  unfold pass1_urls.
  destruct (extractUrlsFromText s) as [|u us]; simpl.
  - destruct (startsWithScheme s); simpl; [|tauto].
    intros [<- | []]; right; tauto.
  - tauto.
Qed.

Lemma pass1_urls_string_link s :
  pass1_urls (VString s) <> [] -> includesLink s = true.
Proof.
  intros H; destruct (pass1_urls (VString s)) as [|url us] eqn:E;
    [congruence|].
  assert (Hu : In url (pass1_urls (VString s))) by (rewrite E; left; reflexivity).
  apply pass1_urls_string_in in Hu as [Hu | [_ Hu]].
  - rewrite extract_is_matchAll in Hu.
    apply matchAll_found in Hu as [Hs [a [b [-> _]]]].
    apply UrlShaped_includesLink, Hs.
  - apply startsWithScheme_includesLink, Hu.
Qed.

Lemma pass1_urls_link v : pass1_urls v <> [] -> HasLinkValue v.
Proof.
  destruct v as [| | | | |s|items|]; try (intros H; exfalso; apply H; reflexivity).
  - intros H; left; exists s; split; [reflexivity|].
    apply includesLink_iff, pass1_urls_string_link, H.
  - rewrite pass1_urls_array; intros H; right.
    destruct (flat_map _ items) as [|url us] eqn:E; [congruence|].
    assert (Hu : In url (url :: us)) by (left; reflexivity).
    rewrite <- E in Hu; apply in_flat_map in Hu as [item [Hi Hu]].
    destruct item as [| | | | |s| |]; try destruct Hu.
    exists items, s; repeat split; [exact Hi|].
    apply includesLink_iff, pass1_urls_string_link.
    intros Hn; rewrite Hn in Hu; destruct Hu.
Qed.

(** X5. Sniffing never misses a field that harvesting could use: when a
    sampled document has a field whose value yields at least one URL in
    the passes, that field is in the candidate set. *)
Theorem sniff_covers_harvestable_fields sampleDocs doc key :
  In doc sampleDocs ->
  In key (Object_keys doc) ->
  pass1_urls (get doc key) <> [] \/ pass2_urls (get doc key) <> [] ->
  In key (sniff sampleDocs).
Proof.
  intros Hd Hk Hu; unfold sniff; apply sniffFrom_iff; right.
  exists doc; repeat split; try assumption.
  apply pass1_urls_link; rewrite pass_urls_same; tauto.
Qed.

(** X6. The URLs of an array value are those of its string elements,
    each harvested as a string value would be, put together in element
    order; elements that are not strings add nothing.  The same holds in
    both passes. *)
Theorem array_urls_concatenate items :
  pass1_urls (VArray items)
  = flat_map (fun item => match item with
                          | VString s => pass1_urls (VString s)
                          | _ => []
                          end) items
  /\
  pass2_urls (VArray items)
  = flat_map (fun item => match item with
                          | VString s => pass2_urls (VString s)
                          | _ => []
                          end) items.
Proof.
  split; [apply pass1_urls_array|].
  rewrite <- pass_urls_same, pass1_urls_array.
  apply flat_map_ext; intros [| | | | |s| |]; try reflexivity.
Qed.

Lemma pass1_urls_scheme_started v url :
  In url (pass1_urls v) -> startsWithScheme url = true.
Proof.
  assert (Hs : forall s, In url (pass1_urls (VString s)) ->
                         startsWithScheme url = true).
  { intros s H; apply pass1_urls_string_in in H as [H | [-> H]]; [|exact H].
    rewrite extract_is_matchAll in H; apply matchAll_found in H as [H _].
    apply UrlShaped_startsWithScheme, H. }
  destruct v as [| | | | |s|items|]; try (intros []); [apply Hs|].
  rewrite pass1_urls_array; intros H.
  apply in_flat_map in H as [item [_ H]].
  destruct item as [| | | | |s| |]; try destruct H; eapply Hs; eassumption.
Qed.

Lemma startsWithScheme_not_blank url :
  startsWithScheme url = true -> blank url = false.
Proof.
  intros H; apply startsWithScheme_includesLink in H.
  unfold includesLink in H; apply orb_true_iff in H as [H | H];
    (eapply (includes_not_blank _ 104%N); [| |exact H];
     [vm_compute; tauto | reflexivity]).
Qed.

(** X7. Every URL the passes hand on starts with [http://] or
    [https://], so it is never blank: the guard on line 39 of [checkUrl]
    does not fire on a harvested URL. *)
Theorem harvested_urls_start_with_scheme value url :
  In url (pass1_urls value) \/ In url (pass2_urls value) ->
  startsWithScheme url = true /\ blank url = false.
Proof.
  intros H.
  assert (Hs : startsWithScheme url = true)
    by (apply (pass1_urls_scheme_started value); rewrite pass_urls_same; tauto).
  split; [exact Hs | apply startsWithScheme_not_blank, Hs].
Qed.

Lemma pass1_urls_falsy v : toBoolean v = false -> pass1_urls v = [].
Proof.
  destruct v as [| | | | |[|c s]| |]; try reflexivity; discriminate.
Qed.

Lemma fieldOccurrences_in urlsOf doc field occ :
  (forall v, toBoolean v = false -> urlsOf v = []) ->
  In occ (fieldOccurrences urlsOf doc field) <->
  exists url, occ = (doc, field, url) /\ In url (urlsOf (get doc field)).
Proof.
  intros Hf; unfold fieldOccurrences.
  destruct (toBoolean (get doc field)) eqn:E; simpl.
  - rewrite in_map_iff; split; intros [url [H1 H2]]; exists url; split;
      congruence.
  - rewrite (Hf _ E); split; [intros [] | intros [url [_ []]]].
Qed.

Lemma enumerate_in_iff urlsOf docs fields doc field url :
  (forall v, toBoolean v = false -> urlsOf v = []) ->
  In (doc, field, url) (enumerate urlsOf docs fields) <->
  In doc docs /\ In field fields /\ In url (urlsOf (get doc field)).
Proof.
  intros Hf; unfold enumerate; rewrite in_flat_map; split.
  - intros [d [Hd H]]; apply in_flat_map in H as [f [Hfi H]].
    apply (fieldOccurrences_in _ _ _ _ Hf) in H as [u [[= <- <- <-] Hu]].
    tauto.
  - intros [Hd [Hfi Hu]]; exists doc; split; [exact Hd|].
    apply in_flat_map; exists field; split; [exact Hfi|].
    apply (fieldOccurrences_in _ _ _ _ Hf); exists url; tauto.
Qed.

(** X8. A triple is an occurrence of the passes exactly when its
    document is in the collection, its field is a candidate field and its
    URL is among those harvested from that field of that document: no
    other field is looked at, and the test for a falsy value removes
    nothing, since a falsy value yields no URL. *)
Theorem occurrences_are_candidate_field_urls docs candidateFields doc field url :
  (In (doc, field, url) (pass1_occurrences docs candidateFields) <->
   In doc docs /\ In field candidateFields /\
   In url (pass1_urls (get doc field)))
  /\
  (In (doc, field, url) (pass2_occurrences docs candidateFields) <->
   In doc docs /\ In field candidateFields /\
   In url (pass2_urls (get doc field))).
Proof.
  split; apply enumerate_in_iff; [exact pass1_urls_falsy|].
  intros v Hv; rewrite <- pass_urls_same; apply pass1_urls_falsy, Hv.
Qed.

(* ================================================================== *)
(** ** More about [checkUrl] *)
(* ================================================================== *)

Lemma checkUrl_try_requests url w r w1 :
  checkUrl_try url w = (r, w1) ->
  exists new, requests w1 = requests w ++ new /\ checkRequests url new.
Proof.
  unfold checkUrl_try, checkRequests; fold (blank url).
  destruct (blank url) eqn:Hb.
  { intros [= <- <-]; exists []; rewrite app_nil_r; tauto. }
  destruct (isYouTube url) eqn:Hy; unfold bind, await_fetch, await_text, ret.
  - destruct (fetch (net w) url GET) as [[r'|e'] n'];
      [destruct (text r')|]; intros [= <- <-]; exists [(url, GET)]; simpl;
      split; try reflexivity; right; left; tauto.
  - destruct (fetch (net w) url HEAD) as [[r'|e'] n'].
    + destruct (status r' =? 404)%Z.
      * simpl; destruct (fetch n' url GET) as [[r2|e'] n2];
          intros [= <- <-]; exists [(url, HEAD); (url, GET)]; simpl;
          rewrite <- app_assoc; split; try reflexivity; right; right; tauto.
      * intros [= <- <-]; exists [(url, HEAD)]; simpl.
        split; try reflexivity; right; right; tauto.
    + intros [= <- <-]; exists [(url, HEAD)]; simpl.
      split; try reflexivity; right; right; tauto.
Qed.

Lemma checkUrl_requests_shape url w :
  exists b w' new,
    checkUrl url w = (Ret b, w') /\
    requests w' = requests w ++ new /\ checkRequests url new.
Proof.
  unfold checkUrl, try_catch.
  destruct (checkUrl_try url w) as [[b|e|n] w1] eqn:E.
  - destruct (checkUrl_try_requests _ _ _ _ E) as [new [H1 H2]].
    exists b, w1, new; tauto.
  - destruct (checkUrl_try_requests _ _ _ _ E) as [new [H1 H2]].
    eexists; eexists; exists new; split; [reflexivity|]; simpl; tauto.
  - exfalso; exact (checkUrl_try_no_exit _ _ _ _ E).
Qed.

(** X9. One check talks to the network about its own URL only and at
    most twice: not at all for a blank URL, one GET for a URL with a
    video marker, and for any other URL one HEAD, followed or not by one
    GET. *)
Theorem checkUrl_requests url w :
  exists b w' new,
    checkUrl url w = (Ret b, w') /\
    requests w' = requests w ++ new /\
    ((blank url = true /\ new = []) \/
     (blank url = false /\ isYouTube url = true /\ new = [(url, GET)]) \/
     (blank url = false /\ isYouTube url = false /\
      (new = [(url, HEAD)] \/ new = [(url, HEAD); (url, GET)]))).
Proof. exact (checkUrl_requests_shape url w). Qed.

(** X10. A URL is reported broken for one of three reasons only: a fetch
    or the reading of the body failed; or it has a video marker and the
    body fetched holds one of the four phrases; or it has none and both
    the HEAD and the GET answered 404. *)
Theorem checkUrl_broken_cause url w w' :
  checkUrl url w = (Ret true, w') ->
  (exists e w1, raises url w e w1) \/
  (isYouTube url = true /\
   exists r n body,
     fetch (net w) url GET = (inl r, n) /\ text r = inl body /\
     existsb (fun phrase => includes phrase body) unavailablePhrases = true) \/
  (isYouTube url = false /\
   exists r n1 r2 n2,
     fetch (net w) url HEAD = (inl r, n1) /\ status r = 404%Z /\
     fetch n1 url GET = (inl r2, n2) /\ status r2 = 404%Z).
Proof.
  unfold checkUrl, try_catch.
  destruct (checkUrl_try url w) as [[b|e|n] w1] eqn:E.
  - intros [= -> <-]; right; revert E.
    unfold checkUrl_try; destruct (_ || _); [discriminate|].
    destruct (isYouTube url); unfold bind, await_fetch, await_text, ret.
    + destruct (fetch (net w) url GET) as [[r|e'] n]; [|discriminate].
      destruct (text r) as [body|e'] eqn:Ht; [|discriminate].
      intros [= H _]; left; split; [reflexivity|].
      exists r, n, body; tauto.
    + destruct (fetch (net w) url HEAD) as [[r|e'] n1]; [|discriminate].
      destruct (status r =? 404)%Z eqn:Hs; [|discriminate].
      simpl; destruct (fetch n1 url GET) as [[r2|e'] n2] eqn:Hg;
        [|discriminate].
      intros [= H _]; right; split; [reflexivity|].
      exists r, n1, r2, n2; apply Z.eqb_eq in Hs, H; tauto.
  - intros _; left; exists e, w1; apply checkUrl_try_throws, E.
  - exfalso; exact (checkUrl_try_no_exit _ _ _ _ E).
Qed.

Lemma checkUrl_effects url w :
  exists b w' errs new,
    checkUrl url w = (Ret b, w') /\
    console w' = console w ++ errs /\
    (errs = [] \/ exists reason, errs = [ErrorChecking url reason]) /\
    requests w' = requests w ++ new /\ checkRequests url new.
Proof.
  destruct (checkUrl_returns url w) as [b [w' [errs [E [Hc He]]]]].
  destruct (checkUrl_requests_shape url w) as [b' [w'' [new [E' [Hr Hn]]]]].
  rewrite E in E'; injection E' as <- <-.
  exists b, w', errs, new; tauto.
Qed.

(* ================================================================== *)
(** ** More about the second pass *)
(* ================================================================== *)

Lemma nth_error_firstn_some {A} k (l : list A) n x :
  nth_error (firstn k l) n = Some x -> nth_error l n = Some x.
Proof.
  revert k n; induction l as [|a l IH]; intros [|k] [|n]; simpl;
    try discriminate; [tauto | apply IH].
Qed.

(** The whole loop over a list of occurrences, with what it writes and
    fetches.  It reaches the occurrence at position [k]: the lines of the
    [k] occurrences before it are written; when the loop throws at that
    occurrence, at most the error line of its check follows them. *)
Lemma checkOccurrences_effects totalLinks occs st w :
  exists r w' out errs new k,
    for_of occs (checkOccurrence totalLinks) st w = (r, w') /\
    console w' = console w ++ out ++ errs /\
    (errs = [] \/ exists url reason, errs = [ErrorChecking url reason]) /\
    k <= length occs /\
    passLines totalLinks (currentLink st) (firstn k occs) out /\
    requests w' = requests w ++ new /\
    Forall (fun rq => exists doc field, In (doc, field, fst rq) occs) new /\
    length new <= 2 * length occs /\
    match r with
    | Ret st' =>
        k = length occs /\ errs = [] /\
        currentLink st' = currentLink st + length occs /\
        brokenLinksCount st'
        = brokenLinksCount st + length (filter isLogBroken out) /\
        (Forall (fun occ => blank (snd occ) = false) occs ->
         length occs <= length new)
    | Throw e =>
        exists doc field url,
          nth_error occs k = Some (doc, field, url) /\
          ToString_throws (get doc (lit "_id")) = Some e
    | Exit _ => False
    end.
Proof.
  revert st w; induction occs as [|[[doc field] url] occs IH]; intros st w.
  - exists (Ret st), w, [], [], [], 0; simpl; rewrite !app_nil_r.
    split; [reflexivity|]; split; [reflexivity|].
    split; [left; reflexivity|]; split; [lia|].
    split; [constructor|]; split; [reflexivity|].
    split; [constructor|]; split; [lia|].
    repeat split; lia.
  - destruct (checkUrl_effects url w)
      as [b [w1 [errs1 [new1 [E [Hc [He [Hr Hn]]]]]]]].
    pose proof (checkLink_run doc field totalLinks st url w b w1 E) as Hrun.
    assert (Hnew1 : length new1 <= 2 /\
                    (blank url = false -> 1 <= length new1) /\
                    Forall (fun rq => exists d f,
                                In (d, f, fst rq) ((doc, field, url) :: occs))
                           new1).
    { destruct Hn as [[Hb ->] | [[Hb [_ ->]] | [Hb [_ [-> | ->]]]]]; simpl;
        repeat split; try lia; try congruence; repeat constructor;
        exists doc, field; left; reflexivity. }
    destruct Hnew1 as [Hle [Hge Hurl]].
    simpl; unfold bind; unfold checkOccurrence at 1; rewrite Hrun.
    assert (Hgo : forall st1 line,
               currentLink st1 = currentLink st + 1 ->
               (line = LogBroken field (get doc (lit "_id")) url
                                 (currentLink st + 1) totalLinks /\
                brokenLinksCount st1 = brokenLinksCount st + 1 \/
                line = WriteProgress (currentLink st + 1) totalLinks /\
                brokenLinksCount st1 = brokenLinksCount st) ->
               exists r w' out errs new k,
                 for_of occs (checkOccurrence totalLinks) st1 (logged w1 line)
                 = (r, w') /\
                 console w' = console w ++ out ++ errs /\
                 (errs = [] \/
                  exists url reason, errs = [ErrorChecking url reason]) /\
                 k <= S (length occs) /\
                 passLines totalLinks (currentLink st)
                           (firstn k ((doc, field, url) :: occs)) out /\
                 requests w' = requests w ++ new /\
                 Forall (fun rq => exists d f,
                             In (d, f, fst rq) ((doc, field, url) :: occs))
                        new /\
                 length new <= 2 * S (length occs) /\
                 match r with
                 | Ret st' =>
                     k = S (length occs) /\ errs = [] /\
                     currentLink st' = currentLink st + S (length occs) /\
                     brokenLinksCount st'
                     = brokenLinksCount st + length (filter isLogBroken out) /\
                     (Forall (fun occ => blank (snd occ) = false)
                             ((doc, field, url) :: occs) ->
                      S (length occs) <= length new)
                 | Throw e =>
                     exists d f u,
                       nth_error ((doc, field, url) :: occs) k
                       = Some (d, f, u) /\
                       ToString_throws (get d (lit "_id")) = Some e
                 | Exit _ => False
                 end).
    { intros st1 line L1 Hl.
      destruct (IH st1 (logged w1 line))
        as [r [w2 [out2 [errs2 [new2 [k [E2 [C2 [He2 [K2 [P2 [R2 [F2 [U2 M2]]]]]]]]]]]]]].
      exists r, w2, (errs1 ++ line :: out2), errs2, (new1 ++ new2), (S k).
      split; [exact E2|].
      split; [rewrite C2; simpl; rewrite Hc, <- !app_assoc; reflexivity|].
      split; [exact He2|].
      split; [lia|].
      split.
      { simpl; rewrite L1 in P2; econstructor; [exact He| |exact P2].
        destruct Hl as [[-> _] | [-> _]]; tauto. }
      split; [rewrite R2; simpl; rewrite Hr, <- app_assoc; reflexivity|].
      split.
      { apply Forall_app; split; [exact Hurl|].
        eapply Forall_impl; [|exact F2].
        intros rq [d [f H]]; exists d, f; right; exact H. }
      split; [rewrite length_app; lia|].
      destruct r as [st'|e|n]; [|exact M2|exact M2].
      destruct M2 as [-> [-> [L2 [B2 G2]]]].
      rewrite filter_app, length_app.
      destruct (filter_isLogBroken_errs url errs1 He) as [_ ->].
      repeat split; try lia.
      - destruct Hl as [[-> Hb] | [-> Hb]]; simpl in *; lia.
      - intros Hall; inversion Hall as [|? ? Hb Hrest]; subst; simpl in Hb.
        rewrite length_app; specialize (G2 Hrest); specialize (Hge Hb); lia. }
    destruct b.
    + destruct (ToString_throws (get doc (lit "_id"))) as [e|] eqn:Et.
      * exists (Throw e), w1, [], errs1, new1, 0; simpl.
        split; [reflexivity|].
        split; [exact Hc|].
        split; [destruct He as [-> | [reason ->]];
                [left; reflexivity | right; eexists; eexists; reflexivity]|].
        split; [lia|].
        split; [constructor|].
        split; [exact Hr|].
        split; [exact Hurl|].
        split; [lia|].
        exists doc, field, url; tauto.
      * apply Hgo; simpl; tauto.
    + apply Hgo; simpl; tauto.
Qed.

Lemma passLines_broken totalLinks i occs out field id url j t :
  passLines totalLinks i occs out ->
  In (LogBroken field id url j t) out ->
  t = totalLinks /\ i < j /\
  exists doc, nth_error occs (j - i - 1) = Some (doc, field, url) /\
              id = get doc (lit "_id").
Proof.
  induction 1 as [|i doc f u occs errs line out He Hl _ IH]; [intros []|].
  rewrite in_app_iff; intros [H | [H | H]].
  - destruct He as [-> | [reason ->]]; [destruct H|].
    destruct H as [H | []]; discriminate.
  - rewrite H in Hl; destruct Hl as [Hl | Hl]; [|discriminate].
    injection Hl as -> -> -> -> ->.
    repeat split; [lia|].
    exists doc; replace (i + 1 - i - 1) with 0 by lia; tauto.
  - destruct (IH H) as [Ht [Hlt [d [Hn Hid]]]]; repeat split; [exact Ht | lia |].
    exists d; replace (j - i - 1) with (S (j - (i + 1) - 1)) by lia; tauto.
Qed.

Lemma passLines_count totalLinks i occs out :
  passLines totalLinks i occs out ->
  length (filter isLogBroken out) <= length occs.
Proof.
  induction 1 as [|i doc f u occs errs line out He Hl _ IH]; [simpl; lia|].
  rewrite filter_app, length_app.
  destruct (filter_isLogBroken_errs u errs He) as [_ ->].
  destruct Hl as [-> | ->]; simpl; lia.
Qed.

Lemma pass2_occurrences_not_blank docs fields :
  Forall (fun occ => blank (snd occ) = false) (pass2_occurrences docs fields).
Proof.
  apply Forall_forall; intros [[doc field] url] H.
  apply enumerate_in_iff in H as [_ [_ H]].
  - simpl; apply startsWithScheme_not_blank.
    apply (pass1_urls_scheme_started (get doc field)).
    rewrite pass_urls_same; exact H.
  - intros v Hv; rewrite <- pass_urls_same; apply pass1_urls_falsy, Hv.
Qed.

(** X11. Every broken-link line the second pass writes, whether it
    returns or stops at an error, reports the total it was given and,
    with its index [i], the field, the URL and the document id of the
    [i]-th occurrence of the enumeration. *)
Theorem checkLinks_broken_lines docs candidateFields totalLinks w :
  exists r w' out,
    checkLinks docs candidateFields totalLinks w = (r, w') /\
    console w' = console w ++ out /\
    forall field id url i t,
      In (LogBroken field id url i t) out ->
      t = totalLinks /\ 1 <= i /\
      exists doc,
        nth_error (pass2_occurrences docs candidateFields) (i - 1)
        = Some (doc, field, url) /\
        id = get doc (lit "_id").
Proof.
  destruct (checkOccurrences_effects totalLinks
              (pass2_occurrences docs candidateFields)
              {| currentLink := 0; brokenLinksCount := 0 |} w)
    as [r [w' [out [errs [new [k [E [C [He [K [P _]]]]]]]]]]].
  exists r, w', (out ++ errs); rewrite checkLinks_flat.
  split; [exact E|]; split; [exact C|].
  intros field id url i t H; apply in_app_iff in H as [H | H].
  - destruct (passLines_broken _ _ _ _ _ _ _ _ _ P H) as [Ht [Hi [doc [Hd Hid]]]].
    simpl in *; repeat split; try lia; try assumption.
    exists doc; split; [|exact Hid].
    replace (i - 1) with (i - 0 - 1) by lia.
    eapply nth_error_firstn_some, Hd.
  - destruct He as [-> | [u [reason ->]]]; [destruct H|].
    destruct H as [H | []]; discriminate.
Qed.

(** X12. When the second pass returns, its count of broken links is the
    number of broken-link lines it wrote, and it does not exceed its
    running index, which is the number of occurrences. *)
Theorem checkLinks_broken_count docs candidateFields totalLinks w st w' :
  checkLinks docs candidateFields totalLinks w = (Ret st, w') ->
  exists out,
    console w' = console w ++ out /\
    brokenLinksCount st = length (filter isLogBroken out) /\
    brokenLinksCount st <= currentLink st /\
    currentLink st = length (pass2_occurrences docs candidateFields).
Proof.
  intros H.
  destruct (checkOccurrences_effects totalLinks
              (pass2_occurrences docs candidateFields)
              {| currentLink := 0; brokenLinksCount := 0 |} w)
    as [r [w1 [out [errs [new [k [E [C [_ [_ [P [_ [_ [_ R]]]]]]]]]]]]]].
  rewrite <- checkLinks_flat, H in E; injection E as <- <-.
  destruct R as [-> [-> [L [B _]]]].
  rewrite firstn_all in P; apply passLines_count in P.
  exists out; rewrite app_nil_r in C; simpl in *.
  repeat split; try assumption; lia.
Qed.

(** X13. The second pass issues at most two fetches per occurrence, each
    for the URL of an occurrence of the enumeration; when it returns, it
    has issued at least one fetch per occurrence. *)
Theorem checkLinks_requests docs candidateFields totalLinks w :
  exists r w' new,
    checkLinks docs candidateFields totalLinks w = (r, w') /\
    requests w' = requests w ++ new /\
    length new <= 2 * length (pass2_occurrences docs candidateFields) /\
    Forall (fun rq => exists doc field,
                In (doc, field, fst rq)
                   (pass2_occurrences docs candidateFields)) new /\
    ((exists st, r = Ret st) ->
     length (pass2_occurrences docs candidateFields) <= length new).
Proof.
  destruct (checkOccurrences_effects totalLinks
              (pass2_occurrences docs candidateFields)
              {| currentLink := 0; brokenLinksCount := 0 |} w)
    as [r [w' [out [errs [new [k [E [_ [_ [_ [_ [R [F [U M]]]]]]]]]]]]]].
  exists r, w', new; rewrite checkLinks_flat; repeat split; try assumption.
  intros [st ->]; destruct M as [_ [_ [_ [_ M]]]].
  apply M, pass2_occurrences_not_blank.
Qed.

(* ================================================================== *)
(** ** More about [main] *)
(* ================================================================== *)

Lemma wrote_logged w o out : wrote (logged w o) out = wrote w (o :: out).
Proof. unfold wrote, logged; simpl; rewrite <- app_assoc; reflexivity. Qed.

Lemma logged_wrote w o : logged w o = wrote w [o].
Proof. reflexivity. Qed.

Lemma emit_fields fields w :
  fields <> [] ->
  for_of fields (fun _ field => emit (LogField field)) tt w
  = (Ret tt, wrote w (map LogField fields)).
Proof.
  revert w; induction fields as [|f fields IH]; intros w H; [congruence|].
  simpl; unfold bind, emit.
  destruct fields as [|g fields]; [reflexivity|].
  rewrite IH by discriminate; rewrite wrote_logged; reflexivity.
Qed.

Lemma bind_emit {B} o (k : M B) w : (emit o ;; k) w = k (logged w o).
Proof. reflexivity. Qed.

Lemma bind_run {A B} (c : M A) (k : A -> M B) w a w' :
  c w = (Ret a, w') -> (x <- c ;; k x) w = k a w'.
Proof. intros H; unfold bind; rewrite H; reflexivity. Qed.

Lemma main_run sampleDocs docs w st w1 :
  sniff sampleDocs <> [] ->
  checkLinks docs (sniff sampleDocs)
             (countLinks docs (sniff sampleDocs))
             (wrote w
                ([ConsoleLog (10%N :: lit "Inspecting sample documents to detect fields containing links...");
                  ConsoleLog (lit "Detected fields that may contain links:")]
                 ++ map LogField (sniff sampleDocs)
                 ++ [LogTotal (countLinks docs (sniff sampleDocs))]))
  = (Ret st, w1) ->
  main sampleDocs docs w
  = (Exit 0,
     wrote w1 [LogComplete (length docs) (brokenLinksCount st);
               ClientClose]).
Proof.
  intros Hs E.
  unfold main, try_finally, try_catch.
  rewrite bind_emit.
  destruct (sniff sampleDocs) as [|f fs] eqn:Es; [congruence|].
  change (length (f :: fs) =? 0) with false; cbv beta iota.
  rewrite (bind_run _ _ _ tt _ eq_refl).
  rewrite bind_emit.
  rewrite (bind_run _ _ _ _ _ (emit_fields (f :: fs) _ Hs)).
  rewrite bind_emit.
  match goal with
  | |- context [bind (checkLinks _ _ _) _ ?W] =>
      replace W with
        (wrote w
           ([ConsoleLog (10%N :: lit "Inspecting sample documents to detect fields containing links...");
             ConsoleLog (lit "Detected fields that may contain links:")]
            ++ map LogField (f :: fs)
            ++ [LogTotal (countLinks docs (f :: fs))]))
        by (unfold wrote, logged; simpl; rewrite <- !app_assoc; reflexivity)
  end.
  rewrite (bind_run _ _ _ _ _ E).
  unfold emit, bind, ret, process_exit; simpl.
  unfold wrote, logged; simpl; rewrite <- app_assoc; reflexivity.
Qed.

Lemma bind_throw {A B} (c : M A) (k : A -> M B) w e w' :
  c w = (Throw e, w') -> (x <- c ;; k x) w = (Throw e, w').
Proof. intros H; unfold bind; rewrite H; reflexivity. Qed.

(** When the second pass throws, [main] catches the error (line 257),
    writes it, closes the client and exits with code 0; the completion
    line is not written. *)
Lemma main_abort sampleDocs docs w e w1 :
  sniff sampleDocs <> [] ->
  checkLinks docs (sniff sampleDocs)
             (countLinks docs (sniff sampleDocs))
             (wrote w
                ([ConsoleLog (10%N :: lit "Inspecting sample documents to detect fields containing links...");
                  ConsoleLog (lit "Detected fields that may contain links:")]
                 ++ map LogField (sniff sampleDocs)
                 ++ [LogTotal (countLinks docs (sniff sampleDocs))]))
  = (Throw e, w1) ->
  main sampleDocs docs w
  = (Exit 0, wrote w1 [ErrorOccurred e; ClientClose]).
Proof.
  intros Hs E.
  unfold main, try_finally, try_catch.
  rewrite bind_emit.
  destruct (sniff sampleDocs) as [|f fs] eqn:Es; [congruence|].
  change (length (f :: fs) =? 0) with false; cbv beta iota.
  rewrite (bind_run _ _ _ tt _ eq_refl).
  rewrite bind_emit.
  rewrite (bind_run _ _ _ _ _ (emit_fields (f :: fs) _ Hs)).
  rewrite bind_emit.
  match goal with
  | |- context [bind (checkLinks _ _ _) _ ?W] =>
      replace W with
        (wrote w
           ([ConsoleLog (10%N :: lit "Inspecting sample documents to detect fields containing links...");
             ConsoleLog (lit "Detected fields that may contain links:")]
            ++ map LogField (f :: fs)
            ++ [LogTotal (countLinks docs (f :: fs))]))
        by (unfold wrote, logged; simpl; rewrite <- !app_assoc; reflexivity)
  end.
  rewrite (bind_throw _ _ _ _ _ E).
  unfold emit, bind, ret, process_exit; simpl.
  unfold wrote, logged; simpl; rewrite <- app_assoc; reflexivity.
Qed.

(** How a run with a candidate field ends, by how its second pass
    ends. *)
Lemma main_outcome sampleDocs docs w :
  sniff sampleDocs <> [] ->
  exists out last w',
    main sampleDocs docs w = (Exit 0, w') /\
    console w'
    = console w
      ++ [ConsoleLog (10%N :: lit "Inspecting sample documents to detect fields containing links...");
          ConsoleLog (lit "Detected fields that may contain links:")]
      ++ map LogField (sniff sampleDocs)
      ++ [LogTotal (countLinks docs (sniff sampleDocs))]
      ++ out
      ++ [last; ClientClose] /\
    ((last = LogComplete (length docs) (length (filter isLogBroken out)) /\
      passLines (countLinks docs (sniff sampleDocs)) 0
                (pass2_occurrences docs (sniff sampleDocs)) out)
     \/
     (exists e doc,
        In doc docs /\
        ToString_throws (get doc (lit "_id")) = Some e /\
        last = ErrorOccurred e)).
Proof.
  intros Hs.
  match goal with
  | |- context [LogTotal ?t] =>
      destruct (checkOccurrences_effects t
                  (pass2_occurrences docs (sniff sampleDocs))
                  {| currentLink := 0; brokenLinksCount := 0 |}
                  (wrote w
                     ([ConsoleLog (10%N :: lit "Inspecting sample documents to detect fields containing links...");
                       ConsoleLog (lit "Detected fields that may contain links:")]
                      ++ map LogField (sniff sampleDocs) ++ [LogTotal t])))
        as [r [w1 [out [errs [new [k [E [C [_ [_ [P [_ [_ [_ R]]]]]]]]]]]]]]
  end.
  rewrite <- checkLinks_flat in E.
  destruct r as [st|e|n]; [| |destruct R].
  - destruct R as [-> [-> [_ [B _]]]].
    rewrite firstn_all in P; rewrite app_nil_r in C; simpl in B.
    exists out; eexists; eexists; split; [apply (main_run _ _ _ _ _ Hs E)|].
    split; [|left; split; [reflexivity | exact P]].
    unfold wrote at 1; cbn [console]; rewrite C; unfold wrote; cbn [console].
    rewrite B, <- !app_assoc; reflexivity.
  - destruct R as [doc [field [url [Hn He]]]].
    exists (out ++ errs); eexists; eexists.
    split; [apply (main_abort _ _ _ _ _ Hs E)|].
    split; [|right; exists e, doc; repeat split;
             [eapply pass2_occurrence_doc, Hn | exact He]].
    unfold wrote at 1; cbn [console]; rewrite C; unfold wrote; cbn [console].
    rewrite <- !app_assoc; reflexivity.
Qed.

(** X14. When sniffing finds a candidate field and the [_id] of every
    document converts to a string, [main] runs to the end: the console
    gets the inspecting line, the detected line, one line per candidate
    field, the total, the lines of the second pass, the completion line
    and the closing of the client, in this order, and the process exits
    with code 0.  The completion line reports the number of documents
    and, as broken links, the number of broken-link lines written. *)
Theorem main_completed_run sampleDocs docs w :
  sniff sampleDocs <> [] ->
  (forall doc, In doc docs -> ToString_throws (get doc (lit "_id")) = None) ->
  exists out w',
    main sampleDocs docs w = (Exit 0, w') /\
    console w'
    = console w
      ++ [ConsoleLog (10%N :: lit "Inspecting sample documents to detect fields containing links...");
          ConsoleLog (lit "Detected fields that may contain links:")]
      ++ map LogField (sniff sampleDocs)
      ++ [LogTotal (countLinks docs (sniff sampleDocs))]
      ++ out
      ++ [LogComplete (length docs) (length (filter isLogBroken out));
          ClientClose] /\
    passLines (countLinks docs (sniff sampleDocs)) 0
              (pass2_occurrences docs (sniff sampleDocs)) out.
Proof.
  intros Hs Hid.
  destruct (main_outcome sampleDocs docs w Hs)
    as [out [last [w' [E [C [[-> P] | [e [doc [Hd [He _]]]]]]]]]].
  - exists out, w'; tauto.
  - rewrite (Hid doc Hd) in He; discriminate.
Qed.

(** X15. From the sample query on, [main] ends the process with exit
    code 0 whatever the documents hold and whatever the network does;
    the client is closed before that exactly when a candidate field was
    found. *)
Theorem main_always_exits_zero sampleDocs docs w :
  exists out w',
    main sampleDocs docs w = (Exit 0, w') /\
    console w' = console w ++ out /\
    (In ClientClose out <-> sniff sampleDocs <> []).
Proof.
  destruct (sniff sampleDocs) as [|f fs] eqn:Es.
  - eexists; eexists; split; [|split].
    + unfold main, try_finally, try_catch, bind, emit; rewrite Es; reflexivity.
    + simpl; rewrite <- app_assoc; reflexivity.
    + simpl; split; [intros [H | [H | []]]; discriminate | congruence].
  - assert (Hs : sniff sampleDocs <> []) by (rewrite Es; discriminate).
    destruct (main_outcome sampleDocs docs w Hs)
      as [out [last [w' [E [C _]]]]].
    eexists; exists w'; split; [exact E|].
    split; [exact C|].
    split; [intros _; discriminate|].
    intros _; rewrite !in_app_iff; do 4 right; simpl; tauto.
Qed.



(* ================================================================== *)
(** ** Facts about [trim], digits and [decimal] *)
(* ================================================================== *)

Lemma trimStart_split s :
  exists p, s = p ++ trimStart s /\ forallb isWhiteSpace p = true.
Proof.
  induction s as [|c s [p [H1 H2]]]; simpl.
  - exists []; tauto.
  - destruct (isWhiteSpace c) eqn:E.
    + exists (c :: p); simpl; rewrite E, H2; split; [congruence | reflexivity].
    + exists []; tauto.
Qed.

Lemma trimStart_pad pre s :
  forallb isWhiteSpace pre = true -> trimStart (pre ++ s) = trimStart s.
Proof.
  induction pre as [|c pre IH]; simpl; [reflexivity|].
  rewrite andb_true_iff; intros [-> H]; apply IH, H.
Qed.

Lemma trimStart_app s y :
  trimStart s <> [] -> trimStart (s ++ y) = trimStart s ++ y.
Proof.
  induction s as [|c s IH]; simpl; [congruence|].
  destruct (isWhiteSpace c); [exact IH | reflexivity].
Qed.

Lemma trimEnd_pad s post :
  forallb isWhiteSpace post = true -> trimEnd (s ++ post) = trimEnd s.
Proof.
  intros H; unfold trimEnd; rewrite rev_app_distr, trimStart_pad;
    [reflexivity | rewrite forallb_rev; exact H].
Qed.

Lemma trimEnd_split s :
  exists q, s = trimEnd s ++ q /\ forallb isWhiteSpace q = true.
Proof.
  destruct (trimStart_split (rev s)) as [p [H1 H2]].
  exists (rev p); unfold trimEnd; rewrite forallb_rev; split; [|exact H2].
  rewrite <- rev_app_distr, <- H1, rev_involutive; reflexivity.
Qed.

(** Whitespace around a text does not change what [trim] leaves. *)
Lemma trim_pad pre s post :
  forallb isWhiteSpace pre = true -> forallb isWhiteSpace post = true ->
  trim (pre ++ s ++ post) = trim s.
Proof.
  intros Hpre Hpost; unfold trim; rewrite trimStart_pad by exact Hpre.
  destruct (trimStart s) as [|c t] eqn:E.
  - apply trimStart_nil_iff in E.
    assert (H : trimStart (s ++ post) = [])
      by (apply trimStart_nil_iff; rewrite forallb_app, E, Hpost; reflexivity).
    rewrite H; reflexivity.
  - rewrite trimStart_app, E by (rewrite E; discriminate).
    apply trimEnd_pad, Hpost.
Qed.

Lemma trim_split s :
  exists pre post,
    s = pre ++ trim s ++ post /\
    forallb isWhiteSpace pre = true /\ forallb isWhiteSpace post = true.
Proof.
  destruct (trimStart_split s) as [p [H1 H2]].
  destruct (trimEnd_split (trimStart s)) as [q [H3 H4]].
  exists p, q; unfold trim; rewrite <- H3; tauto.
Qed.

Lemma trim_idempotent s : trim (trim s) = trim s.
Proof.
  destruct (trim_split s) as [pre [post [H1 [H2 H3]]]].
  rewrite H1 at 2; rewrite trim_pad by assumption; reflexivity.
Qed.

Lemma isNaN_trim s : isNaN (trim s) = isNaN s.
Proof.
  unfold isNaN, isStringNumericLiteral; rewrite trim_idempotent; reflexivity.
Qed.

Lemma trim_no_whitespace s :
  forallb (fun c => negb (isWhiteSpace c)) s = true -> trim s = s.
Proof.
  assert (H : forall t, forallb (fun c => negb (isWhiteSpace c)) t = true ->
                        trimStart t = t).
  { intros [|c t]; simpl; [reflexivity|].
    rewrite andb_true_iff, negb_true_iff; intros [-> _]; reflexivity. }
  intros Hs; unfold trim, trimEnd; rewrite (H s Hs), H, rev_involutive;
    [reflexivity | rewrite forallb_rev; exact Hs].
Qed.

Lemma isDigit_not_whitespace c : isDigit c = true -> isWhiteSpace c = false.
Proof.
  unfold isDigit, isWhiteSpace; intros H.
  apply andb_true_iff in H as [H1 H2].
  apply N.leb_le in H1, H2.
  repeat match goal with
    | |- context [(?a =? ?b)%N] =>
        destruct (N.eqb_spec a b); [lia|]
    | |- context [(?a <=? ?b)%N] =>
        destruct (N.leb_spec a b); try lia
    end; reflexivity.
Qed.

Lemma digits_no_whitespace s :
  forallb isDigit s = true ->
  forallb (fun c => negb (isWhiteSpace c)) s = true.
Proof.
  intros H; apply forallb_forall; intros c Hc.
  rewrite forallb_forall in H; rewrite (isDigit_not_whitespace c (H c Hc)).
  reflexivity.
Qed.

Lemma spanDigits_all s : forallb isDigit s = true -> spanDigits s = (s, []).
Proof.
  induction s as [|c s IH]; simpl; [reflexivity|].
  rewrite andb_true_iff; intros [-> H]; rewrite (IH H); reflexivity.
Qed.

Lemma digitsValue_snoc ds c :
  digitsValue (ds ++ [c]) = (10 * digitsValue ds + (Z.of_N c - 48))%Z.
Proof. unfold digitsValue; rewrite fold_left_app; reflexivity. Qed.

Lemma decimalFuel_enough fuel n :
  n < fuel -> decimalFuel fuel n = decimalFuel (S n) n.
Proof.
  revert fuel; induction n as [n IH] using lt_wf_ind; intros fuel Hf.
  destruct fuel as [|fuel]; [lia|]; cbn [decimalFuel].
  destruct (Nat.ltb_spec n 10) as [H | H]; [reflexivity|].
  assert (Hd : n / 10 < n) by (apply Nat.div_lt; lia).
  rewrite (IH (n / 10) Hd fuel) by lia.
  rewrite (IH (n / 10) Hd n) by lia; reflexivity.
Qed.

(** [decimal] digit by digit. *)
Lemma decimal_unfold n :
  decimal n
  = if n <? 10 then [N.of_nat (48 + n)]
    else decimal (n / 10) ++ [N.of_nat (48 + n mod 10)].
Proof.
  unfold decimal at 1; cbn [decimalFuel].
  destruct (Nat.ltb_spec n 10) as [H | H]; [reflexivity|].
  rewrite decimalFuel_enough by (apply Nat.div_lt; lia); reflexivity.
Qed.

Lemma isDigit_of_nat d : d < 10 -> isDigit (N.of_nat (48 + d)) = true.
Proof.
  intros H; unfold isDigit; apply andb_true_iff; split; apply N.leb_le; lia.
Qed.

Lemma decimal_digits n :
  forallb isDigit (decimal n) = true /\ decimal n <> [] /\
  digitsValue (decimal n) = Z.of_nat n.
Proof.
  induction n as [n IH] using lt_wf_ind; rewrite decimal_unfold.
  destruct (Nat.ltb_spec n 10) as [H | H].
  - cbn [forallb]; rewrite isDigit_of_nat by exact H.
    repeat split; [discriminate|]; unfold digitsValue; cbn [fold_left]; lia.
  - destruct (IH (n / 10)) as [H1 [H2 H3]]; [apply Nat.div_lt; lia|].
    pose proof (Nat.mod_upper_bound n 10 ltac:(lia)) as Hm.
    rewrite forallb_app, H1, digitsValue_snoc, H3; cbn [forallb].
    rewrite isDigit_of_nat by exact Hm; repeat split.
    + intros E; apply app_eq_nil in E as [_ E]; discriminate.
    + pose proof (Nat.div_mod_eq n 10); lia.
Qed.

Lemma digits_numeric s :
  forallb isDigit s = true -> s <> [] ->
  trim s = s /\ isNaN s = false /\ parseInt10 s = Some (digitsValue s).
Proof.
  intros Hd Hne.
  assert (Ht : trim s = s) by (apply trim_no_whitespace, digits_no_whitespace, Hd).
  destruct s as [|c r]; [congruence|].
  assert (Hc : isDigit c = true) by (simpl in Hd; apply andb_true_iff in Hd; tauto).
  assert (Hsign : ((c =? 43) || (c =? 45))%N = false /\ (c =? 45)%N = false
                  /\ (c =? 43)%N = false).
  { unfold isDigit in Hc; apply andb_true_iff in Hc as [H1 H2].
    apply N.leb_le in H1, H2.
    destruct (N.eqb_spec c 43), (N.eqb_spec c 45); try lia; tauto. }
  destruct Hsign as [Hs [Hm Hp]].
  split; [exact Ht|]; split.
  - unfold isNaN, isStringNumericLiteral; rewrite Ht.
    unfold isStrDecimalLiteral; rewrite Hs.
    unfold isStrUnsignedDecimalLiteral; rewrite (spanDigits_all _ Hd).
    rewrite orb_true_r; reflexivity.
  - unfold parseInt10.
    assert (Hts : trimStart (c :: r) = c :: r)
      by (simpl; rewrite (isDigit_not_whitespace c Hc); reflexivity).
    rewrite Hts, Hm, Hp, (spanDigits_all _ Hd); cbn [fst].
    rewrite Z.mul_1_l; reflexivity.
Qed.

Lemma decimal_numeric n :
  trim (decimal n) = decimal n /\ isNaN (decimal n) = false /\
  parseInt10 (decimal n) = Some (Z.of_nat n).
Proof.
  destruct (decimal_digits n) as [H1 [H2 H3]].
  destruct (digits_numeric _ H1 H2) as [H4 [H5 H6]].
  rewrite H6, H3; tauto.
Qed.

(* ================================================================== *)
(** ** Choosing by number and by name *)
(* ================================================================== *)

Lemma selectDatabase_numeric databases answer :
  isNaN answer = false ->
  selectDatabase databases answer
  = match parseInt10 (trim answer) with
    | None => NameOfUndefined
    | Some p =>
        if ((p <? 1) || (Z.of_nat (length databases) <? p))%Z
        then Refused (lit "Invalid selection. Exiting.")
        else match nth_error databases (Z.to_nat (p - 1)) with
             | Some name => Chosen name
             | None => NameOfUndefined
             end
    end.
Proof.
  intros H; unfold selectDatabase; rewrite isNaN_trim, H; cbn [negb].
  destruct (parseInt10 (trim answer)) as [p|]; [|reflexivity].
  unfold Number_pred, Number_lt, Number_ge, Array_get.
  destruct (Z.ltb_spec (p - 1) 0), (Z.ltb_spec p 1); try lia;
    [reflexivity|].
  rewrite Z.geb_leb.
  destruct (Z.leb_spec (Z.of_nat (length databases)) (p - 1)),
           (Z.ltb_spec (Z.of_nat (length databases)) p); try lia; reflexivity.
Qed.

Lemma selectDatabase_named databases answer :
  isNaN answer = true ->
  selectDatabase databases answer
  = if existsb (fun db => jsstring_eqb db (trim answer)) databases
    then Chosen (trim answer)
    else Refused (lit "Database name not found. Exiting.").
Proof.
  intros H; unfold selectDatabase; rewrite isNaN_trim, H; cbn [negb].
  destruct (existsb _ databases); reflexivity.
Qed.

Lemma existsb_name_iff names name :
  existsb (fun n => jsstring_eqb n name) names = true <-> In name names.
Proof.
  rewrite existsb_exists; split.
  - intros [n [Hn H]]; apply jsstring_eqb_eq in H; subst; exact Hn.
  - intros H; exists name; split; [exact H | apply jsstring_eqb_refl].
Qed.

Lemma selectCollection_as_database collections answer :
  selectCollection collections answer
  = if length collections =? 0
    then Refused (lit "No collections found in the selected database. Exiting.")
    else collectionWording (selectDatabase collections answer).
Proof.
  unfold selectCollection, selectDatabase.
  destruct (length collections =? 0); [reflexivity|].
  destruct (negb (isNaN (trim answer))).
  - destruct (_ || _); [reflexivity|].
    destruct (Array_get collections _); reflexivity.
  - destruct (negb (existsb _ collections)); reflexivity.
Qed.

Lemma menuFrom_nth names : forall index k name,
  nth_error names k = Some name ->
  nth_error (menuFrom index names) k
  = Some (decimal (index + k + 1) ++ lit ". " ++ name).
Proof.
  induction names as [|n names IH]; intros index [|k] name; simpl;
    try discriminate.
  - intros [= ->]; rewrite Nat.add_0_r; reflexivity.
  - intros H; rewrite (IH (S index) k name H).
    replace (S index + k + 1) with (index + S k + 1) by lia; reflexivity.
Qed.

Lemma select_by_menu_number names index name :
  nth_error names index = Some name ->
  selectDatabase names (decimal (index + 1)) = Chosen name.
Proof.
  intros H; destruct (decimal_numeric (index + 1)) as [Ht [Hn Hp]].
  rewrite (selectDatabase_numeric _ _ Hn), Ht, Hp.
  assert (Hlt : index < length names) by (apply nth_error_Some; congruence).
  destruct (Z.ltb_spec (Z.of_nat (index + 1)) 1); [lia|].
  destruct (Z.ltb_spec (Z.of_nat (length names)) (Z.of_nat (index + 1)));
    [lia|]; cbn [orb].
  replace (Z.to_nat (Z.of_nat (index + 1) - 1)) with index by lia.
  rewrite H; reflexivity.
Qed.

(** X16. Typing the number a menu line shows selects the entry of that
    line: the line at position [index] reads that position plus one, a
    dot and the name, and the answer made of that number chooses that
    name, in the database menu and in the collection menu alike. *)
Theorem menu_number_selects_entry names index name :
  nth_error names index = Some name ->
  nth_error (menu names) index
  = Some (decimal (index + 1) ++ lit ". " ++ name)
  /\ selectDatabase names (decimal (index + 1)) = Chosen name
  /\ selectCollection names (decimal (index + 1)) = Chosen name.
Proof.
  intros H; split; [apply (menuFrom_nth names 0 index name H)|].
  pose proof (select_by_menu_number _ _ _ H) as Hs.
  split; [exact Hs|].
  rewrite selectCollection_as_database, Hs.
  destruct names; [destruct index; discriminate | reflexivity].
Qed.

Lemma selectDatabase_sound databases answer name :
  selectDatabase databases answer = Chosen name -> In name databases.
Proof.
  destruct (isNaN answer) eqn:E.
  - rewrite (selectDatabase_named _ _ E).
    destruct (existsb _ databases) eqn:Ex; [|discriminate].
    intros [= <-]; apply existsb_name_iff, Ex.
  - rewrite (selectDatabase_numeric _ _ E).
    destruct (parseInt10 (trim answer)) as [p|]; [|discriminate].
    destruct (_ || _); [discriminate|].
    destruct (nth_error databases _) as [n|] eqn:En; [|discriminate].
    intros [= <-]; eapply nth_error_In, En.
Qed.

(** X17. Whatever is typed, a name that a selection block settles on is
    one of the names listed. *)
Theorem selection_is_listed names answer name :
  selectDatabase names answer = Chosen name \/
  selectCollection names answer = Chosen name ->
  In name names.
Proof.
  intros [H | H]; [exact (selectDatabase_sound _ _ _ H)|].
  rewrite selectCollection_as_database in H.
  destruct (length names =? 0); [discriminate|].
  destruct (selectDatabase names answer) as [n|m|] eqn:E; simpl in H.
  - injection H as <-; exact (selectDatabase_sound _ _ _ E).
  - repeat match goal with
      | H : context [if ?b then _ else _] |- _ => destruct b
      end; discriminate.
  - discriminate.
Qed.

(** X18. An answer that is not numeric is taken as a name, after
    trimming: it is chosen when a database of that name is listed, and
    otherwise the block refuses with the message that the name was not
    found. *)
Theorem name_answer_selects_by_name databases answer :
  isNaN answer = true ->
  (In (trim answer) databases ->
   selectDatabase databases answer = Chosen (trim answer))
  /\
  (~ In (trim answer) databases ->
   selectDatabase databases answer
   = Refused (lit "Database name not found. Exiting.")).
Proof.
  intros H; rewrite (selectDatabase_named _ _ H).
  destruct (existsb _ databases) eqn:E.
  - apply existsb_name_iff in E; tauto.
  - split; [|reflexivity].
    intros Hin; apply existsb_name_iff in Hin; congruence.
Qed.

(** X19. A numeric answer whose integer part, as [parseInt] reads it, is
    below one or above the number of entries is refused as an invalid
    selection. *)
Theorem number_out_of_range_refused databases answer p :
  isNaN answer = false ->
  parseInt10 (trim answer) = Some p ->
  (p < 1 \/ Z.of_nat (length databases) < p)%Z ->
  selectDatabase databases answer
  = Refused (lit "Invalid selection. Exiting.").
Proof.
  intros Hn Hp Hr; rewrite (selectDatabase_numeric _ _ Hn), Hp.
  destruct (Z.ltb_spec p 1), (Z.ltb_spec (Z.of_nat (length databases)) p);
    try lia; reflexivity.
Qed.

Lemma blank_answer_numeric answer :
  forallb isWhiteSpace answer = true ->
  isNaN answer = false /\ parseInt10 (trim answer) = None.
Proof.
  intros H; apply trim_nil_iff in H.
  unfold isNaN, isStringNumericLiteral; rewrite H; split; reflexivity.
Qed.

(** X20. An answer that [Number] accepts but in which [parseInt] finds
    no digits to read, such as an empty or all-whitespace line, gives a
    [NaN] index: both bounds tests let it through and the block ends by
    reading the name of [undefined], a TypeError, not by refusing the
    selection. *)
Theorem digitless_answer_throws databases answer :
  forallb isWhiteSpace answer = true \/
  (isNaN answer = false /\ parseInt10 (trim answer) = None) ->
  selectDatabase databases answer = NameOfUndefined.
Proof.
  intros [H | H]; [apply blank_answer_numeric in H|];
    destruct H as [Hn Hp];
    rewrite (selectDatabase_numeric _ _ Hn), Hp; reflexivity.
Qed.

(** X21. A numeric answer only ever selects by position: when it leads
    to a choice, the name chosen is the entry at the position the answer
    gives, also when a database carries the typed text as its name. *)
Theorem numeric_answer_selects_by_position databases answer name :
  isNaN answer = false ->
  selectDatabase databases answer = Chosen name ->
  exists p,
    parseInt10 (trim answer) = Some p /\
    (1 <= p <= Z.of_nat (length databases))%Z /\
    nth_error databases (Z.to_nat (p - 1)) = Some name.
Proof.
  intros Hn; rewrite (selectDatabase_numeric _ _ Hn).
  destruct (parseInt10 (trim answer)) as [p|]; [|discriminate].
  destruct (Z.ltb_spec p 1), (Z.ltb_spec (Z.of_nat (length databases)) p);
    try discriminate; cbn [orb].
  destruct (nth_error databases _) as [n|] eqn:En; [|discriminate].
  intros [= <-]; exists p; repeat split; try lia; exact En.
Qed.

(** X22. The collection block behaves as the database block does on the
    same list and answer, with its own wording of the two refusals,
    except that it refuses at once, whatever the answer, when no
    collection is listed. *)
Theorem collection_block_as_database_block collections answer :
  selectCollection collections answer
  = if length collections =? 0
    then Refused (lit "No collections found in the selected database. Exiting.")
    else collectionWording (selectDatabase collections answer).
Proof. apply selectCollection_as_database. Qed.

(** X23. Whitespace typed before or after the answer changes nothing. *)
Theorem selection_ignores_padding names pre answer post :
  forallb isWhiteSpace pre = true ->
  forallb isWhiteSpace post = true ->
  selectDatabase names (pre ++ answer ++ post) = selectDatabase names answer
  /\ selectCollection names (pre ++ answer ++ post)
     = selectCollection names answer.
Proof.
  intros Hpre Hpost.
  unfold selectCollection, selectDatabase.
  rewrite (trim_pad pre answer post Hpre Hpost); split; reflexivity.
Qed.


End Script.

Arguments Build_World {Net} net requests console.
Arguments net {Net} w.
Arguments requests {Net} w.
Arguments console {Net} w.
Arguments logged {Net} w o.
Arguments fetched {Net} w n url m.
Arguments checkUrl {Net} fetch url w.
Arguments checkLink {Net} fetch objectToString doc field totalLinks st url w.
Arguments checkField {Net} fetch objectToString doc totalLinks st field w.
Arguments checkLinks {Net} fetch objectToString docs candidateFields
  totalLinks w.
Arguments main {Net} fetch objectToString sampleDocs docs w.
Arguments raises {Net} fetch url w e w1.

(* ================================================================== *)
(** ** Concrete runs *)
(* ================================================================== *)

(** A network without state that answers by URL and method. *)
Definition answering (table : jsstring -> method -> Response + Error)
  : unit -> jsstring -> method -> (Response + Error) * unit :=
  fun n url m => (table url m, n).

Definition start : World unit :=
  {| net := tt; requests := []; console := [] |}.

(** Objects that all convert to a string, as ObjectIds and plain embedded
    documents do. *)
Definition printable : Conversion :=
  fun _ => inl (lit "[object Object]").

(** The same, except for the object with tag 7: an embedded document
    with an own [toString] that is not a function, whose conversion
    throws a TypeError. *)
Definition ownToStringNotCallable : Conversion :=
  fun tag =>
    if (tag =? 7)%N
    then inr {| message := lit "Cannot convert object to primitive value" |}
    else inl (lit "[object Object]").

Definition page (status : Z) (body : jsstring) : Response + Error :=
  inl {| status := status; text := inl body |}.

(** The scenario of the specification: document A with a live link and a
    removed video, document B with a dead link in an array. *)
Definition scenario_net : jsstring -> method -> Response + Error :=
  fun url m =>
    if jsstring_eqb url (lit "https://ok.example.com") then page 200 []
    else if jsstring_eqb url (lit "https://youtube.com/watch?v=bad")
         then page 200 (lit "<p>This video has been removed by the user</p>")
    else if jsstring_eqb url (lit "https://dead.example.com") then page 404 []
    else inr {| message := lit "getaddrinfo ENOTFOUND" |}.

Definition docA : document :=
  [(lit "_id", VObject 1);
   (lit "link", VString (lit "https://ok.example.com"));
   (lit "video", VString (lit "https://youtube.com/watch?v=bad"))].

Definition docB : document :=
  [(lit "_id", VObject 2);
   (lit "link", VArray [VString (lit "https://dead.example.com")])].

Example scenario_fields : sniff [docA; docB] = [lit "link"; lit "video"].
Proof. vm_compute. reflexivity. Qed.

Example scenario_total :
  countLinks [docA; docB] (sniff [docA; docB]) = 3.
Proof. vm_compute. reflexivity. Qed.

Example scenario_run :
  main (answering scenario_net) printable [docA; docB] [docA; docB] start
  = (Exit 0,
     {| net := tt;
        requests :=
          [(lit "https://ok.example.com", HEAD);
           (lit "https://youtube.com/watch?v=bad", GET);
           (lit "https://dead.example.com", HEAD);
           (lit "https://dead.example.com", GET)];
        console :=
          [ConsoleLog (10%N :: lit "Inspecting sample documents to detect fields containing links...");
           ConsoleLog (lit "Detected fields that may contain links:");
           LogField (lit "link");
           LogField (lit "video");
           LogTotal 3;
           WriteProgress 1 3;
           LogBroken (lit "video") (VObject 1)
                     (lit "https://youtube.com/watch?v=bad") 2 3;
           LogBroken (lit "link") (VObject 2)
                     (lit "https://dead.example.com") 3 3;
           LogComplete 2 2;
           ClientClose] |}).
Proof. vm_compute. reflexivity. Qed.

(* ================================================================== *)
(** ** The theorems at concrete inputs *)
(* ================================================================== *)

(** C2 on the removed video of the scenario. *)
Lemma checkUrl_youtube_body_witness :
  lit "https://youtube.com/watch?v=bad"
  = lit "https://" ++ lit "youtube.com" ++ lit "/watch?v=bad"
  /\ isYouTube (lit "youtube.com") = true
  /\ exists broken,
       checkUrl (answering scenario_net)
                (lit "https://youtube.com/watch?v=bad") start
       = (Ret broken,
          fetched start tt (lit "https://youtube.com/watch?v=bad") GET)
       /\ (broken = true <->
           includes (lit "This video is no longer available")
                    (lit "<p>This video has been removed by the user</p>") = true \/
           includes (lit "Video unavailable")
                    (lit "<p>This video has been removed by the user</p>") = true \/
           includes (lit "This video is private")
                    (lit "<p>This video has been removed by the user</p>") = true \/
           includes (lit "has been removed")
                    (lit "<p>This video has been removed by the user</p>") = true).
Proof.
  split; [reflexivity|]; split; [reflexivity|].
  apply (checkUrl_youtube_body unit (answering scenario_net)
           (lit "https://youtube.com/watch?v=bad")
           (lit "https://") (lit "youtube.com") (lit "/watch?v=bad") start
           {| status := 200;
              text := inl (lit "<p>This video has been removed by the user</p>") |}
           tt (lit "<p>This video has been removed by the user</p>"));
    reflexivity.
Defined.


(** The video test looks at the whole URL, not at its host: a marker in
    the query string sends an ordinary page down the content path. *)
Example checkUrl_marker_in_query :
  requests (snd (checkUrl (answering (fun _ _ => page 404 []))
                          (lit "https://example.com/?from=youtu.be") start))
  = [(lit "https://example.com/?from=youtu.be", GET)]
  /\ fst (checkUrl (answering (fun _ _ => page 404 []))
                   (lit "https://example.com/?from=youtu.be") start)
     = Ret false.
Proof. split; vm_compute; reflexivity. Qed.

(** A document whose [_id] is the embedded document of tag 7 and whose
    link is on a host that does not resolve. *)
Definition docUnprintable : document :=
  [(lit "_id", VObject 7);
   (lit "link", VString (lit "https://nowhere.invalid"))].

(** C4. On a collection whose first document has an [_id] that does not
    convert to a string and a link whose fetch fails, the check of that
    link does return broken and writes the failure's message with the URL
    on the error console; but the checking pass does not go on to the
    next occurrence: converting [doc._id] for the broken-link line throws
    a TypeError outside the [try] of [checkUrl], the pass is left with
    it after the single fetch of the first link, and the link of the
    second document is never checked.  [main] catches the error, closes
    the client and exits with code 0, without a completion line. *)
Theorem transport_failure_aborts_pass :
  checkUrl (answering scenario_net) (lit "https://nowhere.invalid") start
  = (Ret true,
     logged (fetched start tt (lit "https://nowhere.invalid") HEAD)
            (ErrorChecking (lit "https://nowhere.invalid")
                           (lit "getaddrinfo ENOTFOUND")))
  /\ pass2_occurrences [docUnprintable; docB] [lit "link"]
     = [(docUnprintable, lit "link", lit "https://nowhere.invalid");
        (docB, lit "link", lit "https://dead.example.com")]
  /\ checkLinks (answering scenario_net) ownToStringNotCallable
                [docUnprintable; docB] [lit "link"] 2 start
     = (Throw {| message := lit "Cannot convert object to primitive value" |},
        logged (fetched start tt (lit "https://nowhere.invalid") HEAD)
               (ErrorChecking (lit "https://nowhere.invalid")
                              (lit "getaddrinfo ENOTFOUND")))
  /\ main (answering scenario_net) ownToStringNotCallable
          [docUnprintable; docB] [docUnprintable; docB] start
     = (Exit 0,
        {| net := tt;
           requests := [(lit "https://nowhere.invalid", HEAD)];
           console :=
             [ConsoleLog (10%N :: lit "Inspecting sample documents to detect fields containing links...");
              ConsoleLog (lit "Detected fields that may contain links:");
              LogField (lit "link");
              LogTotal 2;
              ErrorChecking (lit "https://nowhere.invalid")
                            (lit "getaddrinfo ENOTFOUND");
              ErrorOccurred
                {| message := lit "Cannot convert object to primitive value" |};
              ClientClose] |}).
Proof. repeat split; vm_compute; reflexivity. Qed.

(** The same collection when every [_id] converts: the pass goes on
    after the failed fetch and checks the link of the second document. *)
Example transport_failure_continues :
  checkLinks (answering scenario_net) printable
             [docUnprintable; docB] [lit "link"] 2 start
  = (Ret {| currentLink := 2; brokenLinksCount := 2 |},
     {| net := tt;
        requests := [(lit "https://nowhere.invalid", HEAD);
                     (lit "https://dead.example.com", HEAD);
                     (lit "https://dead.example.com", GET)];
        console :=
          [ErrorChecking (lit "https://nowhere.invalid")
                         (lit "getaddrinfo ENOTFOUND");
           LogBroken (lit "link") (VObject 7)
                     (lit "https://nowhere.invalid") 1 2;
           LogBroken (lit "link") (VObject 2)
                     (lit "https://dead.example.com") 2 2] |}).
Proof. vm_compute. reflexivity. Qed.

(** C6 on an array element that is a bare scheme, which the pattern does
    not match. *)
Lemma scheme_prefixed_text_harvested_witness :
  let doc := [(lit "links", VArray [VNumber 7; VString (lit "http://")])] in
  In doc [doc] /\ In (lit "links") [lit "links"]
  /\ startsWithScheme (lit "http://") = true
  /\ extractUrlsFromText (lit "http://") = []
  /\ In (doc, lit "links", lit "http://")
        (pass2_occurrences [doc] [lit "links"])
  /\ 1 <= countLinks [doc] [lit "links"].
Proof.
  intros doc.
  pose proof (scheme_prefixed_text_harvested [doc] [lit "links"] doc
                (lit "links") (lit "http://")
                (or_introl eq_refl) (or_introl eq_refl) eq_refl
                (or_intror (ex_intro _ [VNumber 7; VString (lit "http://")]
                              (conj eq_refl (or_intror (or_introl eq_refl))))))
    as [_ [Hfb [Hin Hc]]].
  split; [left; reflexivity|]; split; [left; reflexivity|].
  split; [reflexivity|]; split; [reflexivity|]; split; [|exact Hc].
  apply Hin; rewrite (Hfb eq_refl); left; reflexivity.
Defined.

(** C7 (amended) on an empty sample. *)
Lemma main_no_candidate_fields_witness :
  sniff [] = []
  /\ main (answering scenario_net) printable [] [docA; docB] start
     = (Exit 0,
        logged
          (logged start (ConsoleLog (10%N :: lit "Inspecting sample documents to detect fields containing links...")))
          (ConsoleLog (lit "No fields containing links were detected in the sample documents."))).
Proof.
  split; [reflexivity|].
  apply (main_no_candidate_fields unit (answering scenario_net) printable
           [] [docA; docB] start); reflexivity.
Defined.

(** C7 as the specification words it fails on an empty sample: the
    candidate set is empty and the process exits with code 0, but no
    summary of any kind is on the console. *)
Lemma main_no_fields_writes_no_summary :
  sniff [] = []
  /\ fst (main (answering scenario_net) printable [] [] start) = Exit 0
  /\ existsb isSummaryLine
       (console (snd (main (answering scenario_net) printable [] [] start)))
     = false.
Proof. repeat split. Qed.

(** C8 (amended) on the example of the specification. *)
Lemma extract_exactly_one_url_witness :
  (lit "https://" = lit "http://" \/ lit "https://" = lit "https://")
  /\ lit "example.com/x" <> []
  /\ forallb isUrlChar (lit "example.com/x") = true
  /\ extractUrlsFromText (lit "https://example.com/x")
     = [lit "https://example.com/x"].
Proof.
  split; [right; reflexivity|]; split; [discriminate|].
  split; [reflexivity|].
  apply (extract_exactly_one_url (lit "https://example.com/x")
           (lit "https://") (lit "example.com/x"));
    [right; reflexivity | discriminate | reflexivity | reflexivity].
Defined.

(** C8 as the specification words it fails on the bare scheme: it starts
    with [http://] and has no whitespace or quote after it, yet nothing
    is extracted. *)
Lemma extract_bare_scheme_nothing :
  lit "http://" = lit "http://" ++ []
  /\ forallb isUrlChar [] = true
  /\ extractUrlsFromText (lit "http://") = []
  /\ extractUrlsFromText (lit "http://") <> [lit "http://"].
Proof. repeat split; try reflexivity; discriminate. Qed.

(** C9 on a URL of two spaces. *)
Lemma checkUrl_blank_not_broken_witness :
  forallb isWhiteSpace (lit "  ") = true
  /\ checkUrl (answering scenario_net) (lit "  ") start = (Ret false, start).
Proof.
  split; [reflexivity|].
  apply (checkUrl_blank_not_broken unit (answering scenario_net)
           (lit "  ") start); reflexivity.
Defined.

(** C10 on a document whose candidate field is the empty string. *)
Lemma falsy_field_contributes_nothing_witness :
  let doc := [(lit "link", VString [])] in
  toBoolean (get doc (lit "link")) = false
  /\ countField doc 5 (lit "link") = 5
  /\ checkField (answering scenario_net) printable doc 5
                {| currentLink := 2; brokenLinksCount := 1 |}
                (lit "link") start
     = (Ret {| currentLink := 2; brokenLinksCount := 1 |}, start).
Proof.
  intros doc.
  pose proof (falsy_field_contributes_nothing unit (answering scenario_net)
                printable
                doc (lit "link") (or_introl eq_refl)) as [H1 H2].
  split; [reflexivity|]; split; [apply H1 | apply H2].
Defined.

(* ================================================================== *)
(** ** The further theorems at concrete inputs *)
(* ================================================================== *)

(** X1 on a URL inside a sentence. *)
Lemma extract_urls_shaped_witness :
  In (lit "https://a.b/c") (extractUrlsFromText (lit "see https://a.b/c now"))
  /\ UrlShaped (lit "https://a.b/c")
  /\ exists a b, lit "see https://a.b/c now" = a ++ lit "https://a.b/c" ++ b
                 /\ StopsRun b.
Proof.
  assert (H : In (lit "https://a.b/c")
                 (extractUrlsFromText (lit "see https://a.b/c now")))
    by (vm_compute; left; reflexivity).
  split; [exact H|].
  exact (extract_urls_shaped (lit "see https://a.b/c now")
                             (lit "https://a.b/c") H).
Defined.

(** X5 on the video field of document A. *)
Lemma sniff_covers_harvestable_fields_witness :
  In docA [docA; docB]
  /\ In (lit "video") (Object_keys docA)
  /\ pass1_urls (get docA (lit "video")) <> []
  /\ In (lit "video") (sniff [docA; docB]).
Proof.
  assert (H1 : In docA [docA; docB]) by (left; reflexivity).
  assert (H2 : In (lit "video") (Object_keys docA))
    by (right; right; left; reflexivity).
  assert (H3 : pass1_urls (get docA (lit "video")) <> [])
    by (vm_compute; discriminate).
  repeat split; try assumption.
  exact (sniff_covers_harvestable_fields [docA; docB] docA (lit "video")
           H1 H2 (or_introl H3)).
Defined.

(** X7 on a bare scheme, which reaches the passes by the fallback. *)
Lemma harvested_urls_start_with_scheme_witness :
  In (lit "http://") (pass2_urls (VString (lit "http://")))
  /\ startsWithScheme (lit "http://") = true
  /\ blank (lit "http://") = false.
Proof.
  assert (H : In (lit "http://") (pass2_urls (VString (lit "http://"))))
    by (vm_compute; left; reflexivity).
  split; [exact H|].
  exact (harvested_urls_start_with_scheme (VString (lit "http://"))
           (lit "http://") (or_intror H)).
Defined.

(** X10 on the dead link of the scenario. *)
Lemma checkUrl_broken_cause_witness :
  checkUrl (answering scenario_net) (lit "https://dead.example.com") start
  = (Ret true,
     fetched (fetched start tt (lit "https://dead.example.com") HEAD)
             tt (lit "https://dead.example.com") GET)
  /\ ((exists e w1,
         raises (answering scenario_net) (lit "https://dead.example.com")
                start e w1) \/
      (isYouTube (lit "https://dead.example.com") = true /\
       exists r n body,
         answering scenario_net (net start) (lit "https://dead.example.com") GET
         = (inl r, n) /\ text r = inl body /\
         existsb (fun phrase => includes phrase body) unavailablePhrases
         = true) \/
      (isYouTube (lit "https://dead.example.com") = false /\
       exists r n1 r2 n2,
         answering scenario_net (net start) (lit "https://dead.example.com") HEAD
         = (inl r, n1) /\ status r = 404%Z /\
         answering scenario_net n1 (lit "https://dead.example.com") GET
         = (inl r2, n2) /\ status r2 = 404%Z)).
Proof.
  assert (H : checkUrl (answering scenario_net)
                       (lit "https://dead.example.com") start
              = (Ret true,
                 fetched (fetched start tt (lit "https://dead.example.com") HEAD)
                         tt (lit "https://dead.example.com") GET))
    by reflexivity.
  split; [exact H|].
  exact (checkUrl_broken_cause unit (answering scenario_net)
           (lit "https://dead.example.com") start _ H).
Defined.

(** X14 on the scenario of the specification. *)
Lemma main_completed_run_witness :
  sniff [docA; docB] <> []
  /\ (forall doc, In doc [docA; docB] ->
                   ToString_throws printable (get doc (lit "_id")) = None)
  /\ exists out w',
       main (answering scenario_net) printable [docA; docB] [docA; docB] start
       = (Exit 0, w') /\
       console w'
       = console start
         ++ [ConsoleLog (10%N :: lit "Inspecting sample documents to detect fields containing links...");
             ConsoleLog (lit "Detected fields that may contain links:")]
         ++ map LogField (sniff [docA; docB])
         ++ [LogTotal (countLinks [docA; docB] (sniff [docA; docB]))]
         ++ out
         ++ [LogComplete (length [docA; docB])
                         (length (filter isLogBroken out));
             ClientClose] /\
       passLines (countLinks [docA; docB] (sniff [docA; docB])) 0
                 (pass2_occurrences [docA; docB] (sniff [docA; docB])) out.
Proof.
  assert (H : sniff [docA; docB] <> []) by (vm_compute; discriminate).
  assert (Hid : forall doc, In doc [docA; docB] ->
                  ToString_throws printable (get doc (lit "_id")) = None)
    by (intros doc [<- | [<- | []]]; reflexivity).
  split; [exact H|]; split; [exact Hid|].
  exact (main_completed_run unit (answering scenario_net) printable
           [docA; docB] [docA; docB] start H Hid).
Defined.

(** X16 on the second line of a menu of two. *)
Lemma menu_number_selects_entry_witness :
  nth_error [lit "admin"; lit "shop"] 1 = Some (lit "shop")
  /\ nth_error (menu [lit "admin"; lit "shop"]) 1 = Some (lit "2. shop")
  /\ selectDatabase [lit "admin"; lit "shop"] (lit "2") = Chosen (lit "shop")
  /\ selectCollection [lit "admin"; lit "shop"] (lit "2")
     = Chosen (lit "shop").
Proof.
  split; [reflexivity|].
  exact (menu_number_selects_entry [lit "admin"; lit "shop"] 1 (lit "shop")
           eq_refl).
Defined.

(** X17 on a name typed with spaces around it. *)
Lemma selection_is_listed_witness :
  selectDatabase [lit "admin"; lit "shop"] (lit " shop ") = Chosen (lit "shop")
  /\ In (lit "shop") [lit "admin"; lit "shop"].
Proof.
  split; [reflexivity|].
  exact (selection_is_listed [lit "admin"; lit "shop"] (lit " shop ")
           (lit "shop") (or_introl eq_refl)).
Defined.

(** X18 on a listed name and on a name that is not listed. *)
Lemma name_answer_selects_by_name_witness :
  isNaN (lit "shop") = true
  /\ selectDatabase [lit "admin"; lit "shop"] (lit "shop")
     = Chosen (lit "shop")
  /\ selectDatabase [lit "admin"] (lit "shop")
     = Refused (lit "Database name not found. Exiting.").
Proof.
  split; [reflexivity|]; split.
  - apply (proj1 (name_answer_selects_by_name [lit "admin"; lit "shop"]
                    (lit "shop") eq_refl)).
    right; left; reflexivity.
  - apply (proj2 (name_answer_selects_by_name [lit "admin"] (lit "shop")
                    eq_refl)).
    intros [H | []]; discriminate.
Defined.

(** X19 on a hexadecimal answer: [Number] reads 2, [parseInt] reads 0. *)
Lemma number_out_of_range_refused_witness :
  isNaN (lit "0x2") = false
  /\ parseInt10 (trim (lit "0x2")) = Some 0%Z
  /\ selectDatabase [lit "admin"; lit "shop"] (lit "0x2")
     = Refused (lit "Invalid selection. Exiting.").
Proof.
  split; [reflexivity|]; split; [reflexivity|].
  apply (number_out_of_range_refused [lit "admin"; lit "shop"] (lit "0x2") 0%Z
           eq_refl eq_refl).
  left; reflexivity.
Defined.

(** X20 on an empty line. *)
Lemma digitless_answer_throws_witness :
  forallb isWhiteSpace (lit "") = true
  /\ selectDatabase [lit "admin"; lit "shop"] (lit "") = NameOfUndefined.
Proof.
  split; [reflexivity|].
  exact (digitless_answer_throws [lit "admin"; lit "shop"] (lit "")
           (or_introl eq_refl)).
Defined.

(** X21 on a database that is named like a number: typing 1 chooses the
    first entry, not the database called 1. *)
Lemma numeric_answer_selects_by_position_witness :
  isNaN (lit "1") = false
  /\ selectDatabase [lit "logs"; lit "1"] (lit "1") = Chosen (lit "logs")
  /\ exists p,
       parseInt10 (trim (lit "1")) = Some p /\
       (1 <= p <= Z.of_nat (length [lit "logs"; lit "1"]))%Z /\
       nth_error [lit "logs"; lit "1"] (Z.to_nat (p - 1)) = Some (lit "logs").
Proof.
  split; [reflexivity|]; split; [reflexivity|].
  exact (numeric_answer_selects_by_position [lit "logs"; lit "1"] (lit "1")
           (lit "logs") eq_refl eq_refl).
Defined.

(** X23 on an answer with a space before and a tab after. *)
Lemma selection_ignores_padding_witness :
  forallb isWhiteSpace (lit " ") = true
  /\ forallb isWhiteSpace [9%N] = true
  /\ selectDatabase [lit "admin"; lit "shop"] (lit " " ++ lit "2" ++ [9%N])
     = selectDatabase [lit "admin"; lit "shop"] (lit "2").
Proof.
  split; [reflexivity|]; split; [reflexivity|].
  exact (proj1 (selection_ignores_padding [lit "admin"; lit "shop"]
                  (lit " ") (lit "2") [9%N] eq_refl eq_refl)).
Defined.

(** X12 on the scenario of the specification: three links, two broken. *)
Lemma checkLinks_broken_count_witness :
  checkLinks (answering scenario_net) printable [docA; docB]
             [lit "link"; lit "video"] 3 start
  = (Ret {| currentLink := 3; brokenLinksCount := 2 |},
     snd (checkLinks (answering scenario_net) printable [docA; docB]
                     [lit "link"; lit "video"] 3 start))
  /\ exists out,
       console (snd (checkLinks (answering scenario_net) printable
                                [docA; docB] [lit "link"; lit "video"] 3
                                start))
       = console start ++ out /\
       brokenLinksCount {| currentLink := 3; brokenLinksCount := 2 |}
       = length (filter isLogBroken out) /\
       brokenLinksCount {| currentLink := 3; brokenLinksCount := 2 |}
       <= currentLink {| currentLink := 3; brokenLinksCount := 2 |} /\
       currentLink {| currentLink := 3; brokenLinksCount := 2 |}
       = length (pass2_occurrences [docA; docB] [lit "link"; lit "video"]).
Proof.
  assert (H : checkLinks (answering scenario_net) printable [docA; docB]
                         [lit "link"; lit "video"] 3 start
              = (Ret {| currentLink := 3; brokenLinksCount := 2 |},
                 snd (checkLinks (answering scenario_net) printable
                                 [docA; docB] [lit "link"; lit "video"] 3
                                 start)))
    by (vm_compute; reflexivity).
  split; [exact H|].
  exact (checkLinks_broken_count unit (answering scenario_net) printable
           [docA; docB] [lit "link"; lit "video"] 3 start _ _ H).
Defined.

